(** * QCHAIN: the signed, offline-tolerant event log of the Spiral ecosystem

    A shallow embedding of [src/quantum/QCHAIN.js] (logQCHAIN,
    createQuantumSignature, storeLocalLog, transmitLog, getQCHAINLogs,
    clearQCHAINLogs, verifyQCHAINSignature) and of the synchronisation pass
    [simulateSync] of the offline stress test, together with the platform
    functions they call: SHA-256 ([crypto.subtle.digest]), [JSON.stringify],
    [JSON.parse], [String.prototype.match] on the signature pattern, and
    [localStorage]. *)

From Stdlib Require Import ZArith NArith Ascii String List Lia Bool.
From Stdlib Require Import DecimalString DecimalN DecimalFacts.
From stdpp Require Import gmap strings list sorting.

Set Warnings "-register-all".
Local Open Scope string_scope.
Local Open Scope list_scope.

(** Appending to a string that starts with a known character computes. *)
Arguments String.append !s1 s2 : simpl nomatch.

(** ** Text helpers *)

Module Text.

(** [Array.prototype.join]. *)
Fixpoint join (sep : string) (parts : list string) : string :=
  match parts with
  | [] => ""
  | [p] => p
  | p :: rest => p +:+ sep +:+ join sep rest
  end.

Definition isDigit (c : ascii) : bool :=
  let n := N_of_ascii c in (48 <=? n)%N && (n <=? 57)%N.

(** The class [[0-9a-f]] of the signature pattern: lower case only. *)
Definition isLowerHex (c : ascii) : bool :=
  let n := N_of_ascii c in
  ((48 <=? n)%N && (n <=? 57)%N) || ((97 <=? n)%N && (n <=? 102)%N).

Definition digitChar (d : N) : ascii := ascii_of_N (48 + d).

Definition hexChar (d : N) : ascii :=
  if (d <? 10)%N then ascii_of_N (48 + d) else ascii_of_N (87 + d).

(** [Number.prototype.toString()] on a non-negative integer: its decimal
    digits, most significant first, through the Standard Library's
    conversion to decimal numerals. *)
Definition natToString (n : N) : string :=
  NilZero.string_of_uint (N.to_uint n).

(** [Number.prototype.toString()] on an integer. *)
Definition intToString (z : Z) : string :=
  match z with
  | Zneg p => "-" +:+ natToString (Npos p)
  | _ => natToString (Z.to_N z)
  end.

(** [b.toString(16)] for an element [b] of a [Uint8Array]. *)
Definition toString16 (b : N) : string :=
  if (b <? 16)%N then String (hexChar b) ""
  else String (hexChar (b / 16)) (String (hexChar (b mod 16)) "").

Fixpoint replicate (n : nat) (c : ascii) : string :=
  match n with
  | O => ""
  | S k => String c (replicate k c)
  end.

(** [String.prototype.padStart] with a one-character filler. *)
Definition padStart (width : nat) (c : ascii) (s : string) : string :=
  replicate (width - String.length s) c +:+ s.

(** [new TextEncoder().encode]: strings are kept as their UTF-8 bytes, so
    the encoding reads the bytes off. *)
Definition encode (s : string) : list N :=
  map N_of_ascii (list_ascii_of_string s).

End Text.

(** ** SHA-256, the digest behind [crypto.subtle.digest('SHA-256', _)] *)

Module Sha256.

Definition wordMask : N := 4294967295.

Definition trunc32 (x : N) : N := N.land x wordMask.

Definition add32 (x y : N) : N := trunc32 (x + y).

Definition rotr (k x : N) : N :=
  N.lor (N.shiftr x k) (trunc32 (N.shiftl x (32 - k))).

Definition choose (x y z : N) : N :=
  N.lxor (N.land x y) (N.land (N.lxor x wordMask) z).

Definition majority (x y z : N) : N :=
  N.lxor (N.lxor (N.land x y) (N.land x z)) (N.land y z).

Definition bigSigma0 (x : N) : N :=
  N.lxor (N.lxor (rotr 2 x) (rotr 13 x)) (rotr 22 x).

Definition bigSigma1 (x : N) : N :=
  N.lxor (N.lxor (rotr 6 x) (rotr 11 x)) (rotr 25 x).

Definition smallSigma0 (x : N) : N :=
  N.lxor (N.lxor (rotr 7 x) (rotr 18 x)) (N.shiftr x 3).

Definition smallSigma1 (x : N) : N :=
  N.lxor (N.lxor (rotr 17 x) (rotr 19 x)) (N.shiftr x 10).

(** The round constants and the initial state are the fractional parts of
    the cube and square roots of the first primes, as the standard defines
    them; they are computed here rather than tabulated. *)
Definition isPrime (p : nat) : bool :=
  forallb (fun d => negb (Nat.eqb (p mod d) 0)) (seq 2 (p - 2)).

Definition firstPrimes : list N :=
  map N.of_nat (filter isPrime (seq 2 310)).

Fixpoint cubeRootBits (bits : nat) (n r : N) : N :=
  match bits with
  | O => r
  | S b =>
      let r' := (r + 2 ^ N.of_nat b)%N in
      if (r' * r' * r' <=? n)%N then cubeRootBits b n r' else cubeRootBits b n r
  end.

Definition cubeRoot (n : N) : N := cubeRootBits 40 n 0.

Definition roundConstants : list N :=
  Eval vm_compute in
    map (fun p => trunc32 (cubeRoot (p * 2 ^ 96))) firstPrimes.

Definition initialState : list N :=
  Eval vm_compute in
    map (fun p => trunc32 (N.sqrt (p * 2 ^ 64))) (firstn 8 firstPrimes).

Fixpoint bigEndian (width : nat) (x : N) : list N :=
  match width with
  | O => []
  | S w => (N.shiftr x (8 * N.of_nat w) mod 256)%N :: bigEndian w x
  end.

Definition pad (msg : list N) : list N :=
  let len := length msg in
  msg ++ 128%N :: repeat 0%N ((119 - len mod 64) mod 64)
      ++ bigEndian 8 (8 * N.of_nat len).

Fixpoint toWords (fuel : nat) (bytes : list N) : list N :=
  match fuel, bytes with
  | S f, a :: b :: c :: d :: rest =>
      (a * 16777216 + b * 65536 + c * 256 + d)%N :: toWords f rest
  | _, _ => []
  end.

Fixpoint toBlocks (fuel : nat) (words : list N) : list (list N) :=
  match fuel, words with
  | S f, _ :: _ => firstn 16 words :: toBlocks f (skipn 16 words)
  | _, _ => []
  end.

(** The message schedule, kept most recent word first while it grows. *)
Fixpoint extend (steps : nat) (recent : list N) : list N :=
  match steps with
  | O => recent
  | S k =>
      let w := add32 (add32 (smallSigma1 (nth 1 recent 0%N)) (nth 6 recent 0%N))
                     (add32 (smallSigma0 (nth 14 recent 0%N)) (nth 15 recent 0%N)) in
      extend k (w :: recent)
  end.

Definition schedule (block : list N) : list N :=
  rev (extend 48 (rev block)).

Definition round (st : list N) (kw : N * N) : list N :=
  match st with
  | [a; b; c; d; e; f; g; h] =>
      let t1 := add32 (add32 (add32 h (bigSigma1 e)) (choose e f g))
                      (add32 (fst kw) (snd kw)) in
      let t2 := add32 (bigSigma0 a) (majority a b c) in
      [add32 t1 t2; a; b; c; add32 d t1; e; f; g]
  | _ => st
  end.

Fixpoint zipAdd (xs ys : list N) : list N :=
  match xs, ys with
  | x :: xs', y :: ys' => add32 x y :: zipAdd xs' ys'
  | _, _ => xs
  end.

Definition compress (st block : list N) : list N :=
  zipAdd st (fold_left round (combine roundConstants (schedule block)) st).

Definition digest (msg : list N) : list N :=
  let padded := pad msg in
  let blocks := toBlocks (length padded) (toWords (length padded) padded) in
  flat_map (bigEndian 4) (fold_left compress blocks initialState).

End Sha256.

(** The hex rendering used by both signing and verification:
    [hashArray.map(b => b.toString(16).padStart(2, '0')).join('')]. *)
Definition hashHex (hashArray : list N) : string :=
  Text.join "" (map (fun b => Text.padStart 2 "0" (Text.toString16 b)) hashArray).


(** ** JSON values, [JSON.stringify] and [JSON.parse] *)

Module Json.

(** A JavaScript value as [JSON.stringify] walks it.  Numbers are the
    integers and [NaN] (which stands for every non-finite number: all of
    them serialise as [null]); strings are kept as UTF-8 bytes; an object
    is its list of own properties in insertion order. *)
Inductive tree : Type :=
| TUndef
| TNull
| TBool (b : bool)
| TNum (z : Z)
| TNaN
| TStr (s : string)
| TArr (elems : list tree)
| TObj (props : list (string * tree)).

Definition dquote : ascii := ascii_of_N 34.
Definition backslash : ascii := ascii_of_N 92.

(** *** Own property keys *)

(** An array index is a key that is the decimal form of an integer below
    [2^32 - 1]. *)
Definition arrayIndex (k : string) : option N :=
  match NilZero.uint_of_string k with
  | Some d =>
      let n := N.of_uint d in
      if String.eqb (Text.natToString n) k && (n <? 4294967295)%N
      then Some n else None
  | None => None
  end.

Fixpoint insertIdx {A} (x : N * A) (sorted : list (N * A)) : list (N * A) :=
  match sorted with
  | [] => [x]
  | y :: rest =>
      if (fst x <=? fst y)%N then x :: sorted else y :: insertIdx x rest
  end.

Definition sortIdx {A} (l : list (N * A)) : list (N * A) :=
  fold_right insertIdx [] l.

(** The order in which the own properties of an object are enumerated:
    array indices in ascending order, then the other keys in insertion
    order. *)
Definition ownOrder {A} (props : list (string * A)) : list (string * A) :=
  map snd (sortIdx (omap (fun kv => (fun n => (n, kv)) <$> arrayIndex (fst kv)) props))
  ++ filter (fun kv => arrayIndex (fst kv) = None) props.

(** [obj[k]]: the value of an own property. *)
Fixpoint getProp {A} (props : list (string * A)) (k : string) : option A :=
  match props with
  | [] => None
  | (k', v) :: rest => if String.eqb k' k then Some v else getProp rest k
  end.

(** [obj[k] = v]: an existing property keeps its place, a new one goes
    last. *)
Fixpoint setProp {A} (props : list (string * A)) (k : string) (v : A)
  : list (string * A) :=
  match props with
  | [] => [(k, v)]
  | (k', v') :: rest =>
      if String.eqb k' k then (k', v) :: rest else (k', v') :: setProp rest k v
  end.


(** [t[k]] on a tree; [undefined] when [t] is no object or lacks [k]. *)
Definition field (t : tree) (k : string) : tree :=
  match t with
  | TObj props => default TUndef (getProp props k)
  | _ => TUndef
  end.

Definition truthy (t : tree) : bool :=
  match t with
  | TUndef | TNull | TNaN => false
  | TBool b => b
  | TNum z => negb (z =? 0)%Z
  | TStr s => negb (String.eqb s "")
  | TArr _ | TObj _ => true
  end.

(** *** JSON.stringify *)

Definition quoteChar (c : ascii) : string :=
  let n := N_of_ascii c in
  if (n =? 8)%N then String backslash "b"
  else if (n =? 9)%N then String backslash "t"
  else if (n =? 10)%N then String backslash "n"
  else if (n =? 12)%N then String backslash "f"
  else if (n =? 13)%N then String backslash "r"
  else if (n =? 34)%N then String backslash (String dquote "")
  else if (n =? 92)%N then String backslash (String backslash "")
  else if (n <? 32)%N then
    String backslash
      (String "u" (String "0" (String "0"
         (String (Text.hexChar (n / 16)) (String (Text.hexChar (n mod 16)) "")))))
  else String c "".

Fixpoint quoteBody (s : string) : string :=
  match s with
  | "" => ""
  | String c r => quoteChar c +:+ quoteBody r
  end.

Definition quote (s : string) : string :=
  String dquote (quoteBody s +:+ String dquote "").

(** The members of an object literal: a property whose value has no JSON
    text is left out. *)
Fixpoint members (l : list (string * option string)) : list string :=
  match l with
  | [] => []
  | (k, Some s) :: rest => (quote k +:+ ":" +:+ s) :: members rest
  | (_, None) :: rest => members rest
  end.

(** [JSON.stringify(t)]; [None] is JavaScript's [undefined]. *)
Fixpoint stringify (t : tree) : option string :=
  match t with
  | TUndef => None
  | TNull => Some "null"
  | TNaN => Some "null"
  | TBool true => Some "true"
  | TBool false => Some "false"
  | TNum z => Some (Text.intToString z)
  | TStr s => Some (quote s)
  | TArr elems =>
      Some ("[" +:+ Text.join ","
              (map (fun e => match stringify e with Some s => s | None => "null" end) elems)
            +:+ "]")
  | TObj props =>
      Some ("{" +:+ Text.join ","
              (members (ownOrder (map (fun kv => (fst kv, stringify (snd kv))) props)))
            +:+ "}")
  end.

(** *** JSON.parse *)

Definition isWs (c : ascii) : bool :=
  let n := N_of_ascii c in
  (n =? 32)%N || (n =? 9)%N || (n =? 10)%N || (n =? 13)%N.

Fixpoint skipWs (s : string) : string :=
  match s with
  | String c r => if isWs c then skipWs r else s
  | "" => ""
  end.

Fixpoint stripPrefix (p s : string) : option string :=
  match p, s with
  | "", _ => Some s
  | String a p', String b s' => if Ascii.eqb a b then stripPrefix p' s' else None
  | _, _ => None
  end.

Fixpoint spanDigits (s : string) : string * string :=
  match s with
  | String c r =>
      if Text.isDigit c then let (ds, rest) := spanDigits r in (String c ds, rest)
      else ("", s)
  | "" => ("", "")
  end.

Definition hexValue (c : ascii) : option N :=
  let n := N_of_ascii c in
  if (48 <=? n)%N && (n <=? 57)%N then Some (n - 48)%N
  else if (97 <=? n)%N && (n <=? 102)%N then Some (n - 87)%N
  else if (65 <=? n)%N && (n <=? 70)%N then Some (n - 55)%N
  else None.

(** The UTF-8 bytes of a code unit written [\uXXXX].  (Surrogate halves
    are encoded one by one.) *)
Definition utf8 (u : N) : string :=
  if (u <? 128)%N then String (ascii_of_N u) ""
  else if (u <? 2048)%N then
    String (ascii_of_N (192 + u / 64)) (String (ascii_of_N (128 + u mod 64)) "")
  else
    String (ascii_of_N (224 + u / 4096))
      (String (ascii_of_N (128 + (u / 64) mod 64))
         (String (ascii_of_N (128 + u mod 64)) "")).

Definition unescape (e : ascii) : option string :=
  let n := N_of_ascii e in
  if (n =? 34)%N then Some (String dquote "")
  else if (n =? 92)%N then Some (String backslash "")
  else if (n =? 47)%N then Some "/"
  else if (n =? 98)%N then Some (String (ascii_of_N 8) "")
  else if (n =? 102)%N then Some (String (ascii_of_N 12) "")
  else if (n =? 110)%N then Some (String (ascii_of_N 10) "")
  else if (n =? 114)%N then Some (String (ascii_of_N 13) "")
  else if (n =? 116)%N then Some (String (ascii_of_N 9) "")
  else None.

(** The characters of a string literal after its opening quote, up to and
    including the closing quote. *)
Fixpoint parseStringBody (s : string) : option (string * string) :=
  match s with
  | "" => None
  | String c r =>
      if Ascii.eqb c dquote then Some ("", r)
      else if Ascii.eqb c backslash then
        match r with
        | String e r' =>
            if Ascii.eqb e "u" then
              match r' with
              | String h1 (String h2 (String h3 (String h4 r''))) =>
                  match hexValue h1, hexValue h2, hexValue h3, hexValue h4 with
                  | Some a, Some b, Some c', Some d =>
                      match parseStringBody r'' with
                      | Some (body, rest) =>
                          Some (utf8 (a * 4096 + b * 256 + c' * 16 + d) +:+ body, rest)
                      | None => None
                      end
                  | _, _, _, _ => None
                  end
              | _ => None
              end
            else
              match unescape e, parseStringBody r' with
              | Some u, Some (body, rest) => Some (u +:+ body, rest)
              | _, _ => None
              end
        | "" => None
        end
      else if (N_of_ascii c <? 32)%N then None
      else
        match parseStringBody r with
        | Some (body, rest) => Some (String c body, rest)
        | None => None
        end
  end.

Definition startsFraction (s : string) : bool :=
  match s with
  | String c _ => Ascii.eqb c "." || Ascii.eqb c "e" || Ascii.eqb c "E"
  | "" => false
  end.

(** An integer literal.  A fraction or an exponent is outside the integers
    and is refused. *)
Definition parseNumber (s : string) : option (tree * string) :=
  let (neg, s1) :=
    match s with
    | String c r => if Ascii.eqb c "-" then (true, r) else (false, s)
    | "" => (false, s)
    end in
  let (ds, rest) := spanDigits s1 in
  match ds with
  | "" => None
  | String d ds' =>
      if Ascii.eqb d "0" && negb (String.eqb ds' "") then None
      else if startsFraction rest then None
      else
        match NilZero.uint_of_string ds with
        | Some u =>
            let n := Z.of_N (N.of_uint u) in
            Some (TNum (if neg then (- n)%Z else n), rest)
        | None => None
        end
  end.

(** The elements of an array after the first value position. *)
Fixpoint parseElems (pv : string -> option (tree * string)) (n : nat)
    (s : string) (acc : list tree) : option (tree * string) :=
  match n with
  | O => None
  | S n' =>
      match pv s with
      | Some (v, r) =>
          match skipWs r with
          | String c r' =>
              if Ascii.eqb c "," then parseElems pv n' r' (acc ++ [v])
              else if Ascii.eqb c "]" then Some (TArr (acc ++ [v]), r')
              else None
          | "" => None
          end
      | None => None
      end
  end.

(** The members of an object; each one is assigned as it is read. *)
Fixpoint parseMembers (pv : string -> option (tree * string)) (n : nat)
    (s : string) (acc : list (string * tree)) : option (tree * string) :=
  match n with
  | O => None
  | S n' =>
      match skipWs s with
      | String q r =>
          if Ascii.eqb q dquote then
            match parseStringBody r with
            | Some (k, r1) =>
                match skipWs r1 with
                | String c r2 =>
                    if Ascii.eqb c ":" then
                      match pv r2 with
                      | Some (v, r3) =>
                          match skipWs r3 with
                          | String c' r4 =>
                              if Ascii.eqb c' "," then
                                parseMembers pv n' r4 (setProp acc k v)
                              else if Ascii.eqb c' "}" then
                                Some (TObj (setProp acc k v), r4)
                              else None
                          | "" => None
                          end
                      | None => None
                      end
                    else None
                | "" => None
                end
            | None => None
            end
          else None
      | "" => None
      end
  end.

Fixpoint parseValue (fuel : nat) (s : string) : option (tree * string) :=
  match fuel with
  | O => None
  | S f =>
      match skipWs s with
      | "" => None
      | String c r =>
          if Ascii.eqb c "[" then
            match skipWs r with
            | String c' r' =>
                if Ascii.eqb c' "]" then Some (TArr [], r')
                else parseElems (parseValue f) (String.length r) r []
            | "" => None
            end
          else if Ascii.eqb c "{" then
            match skipWs r with
            | String c' r' =>
                if Ascii.eqb c' "}" then Some (TObj [], r')
                else parseMembers (parseValue f) (String.length r) r []
            | "" => None
            end
          else if Ascii.eqb c dquote then
            match parseStringBody r with
            | Some (body, rest) => Some (TStr body, rest)
            | None => None
            end
          else if Ascii.eqb c "t" then
            match stripPrefix "rue" r with
            | Some rest => Some (TBool true, rest)
            | None => None
            end
          else if Ascii.eqb c "f" then
            match stripPrefix "alse" r with
            | Some rest => Some (TBool false, rest)
            | None => None
            end
          else if Ascii.eqb c "n" then
            match stripPrefix "ull" r with
            | Some rest => Some (TNull, rest)
            | None => None
            end
          else parseNumber (String c r)
      end
  end.

(** [JSON.parse(s)]; [None] is a thrown [SyntaxError]. *)
Definition parse (s : string) : option tree :=
  match parseValue (S (String.length s)) s with
  | Some (t, rest) =>
      match skipWs rest with
      | "" => Some t
      | _ => None
      end
  | None => None
  end.

(** *** The value that comes back from [JSON.parse(JSON.stringify(t))] *)




End Json.

(** ** [String.prototype.match] on the signature pattern *)

Module Regex.

(** The fragment of regular expressions that the signature pattern uses:
    a literal character, [cls+], and the capturing group [(cls+)].
    Repetition is greedy and backtracks. *)
Inductive atom : Type :=
| Chr (c : ascii)
| Plus (cls : ascii -> bool)
| Group (cls : ascii -> bool).

(** [cls+] followed by the continuation [k]: as many characters as
    possible first, one fewer when the rest does not match. *)
Fixpoint plusThen {A} (cls : ascii -> bool) (k : string -> option A)
    (s : string) : option (string * A) :=
  match s with
  | String d r =>
      if cls d then
        match plusThen cls k r with
        | Some (taken, out) => Some (String d taken, out)
        | None =>
            match k r with
            | Some out => Some (String d "", out)
            | None => None
            end
        end
      else None
  | "" => None
  end.

(** A match of the pattern at the start of [s]: the texts of its
    capturing groups. *)
Fixpoint matchHere (p : list atom) (s : string) : option (list string) :=
  match p with
  | [] => Some []
  | Chr c :: rest =>
      match s with
      | String d r => if Ascii.eqb c d then matchHere rest r else None
      | "" => None
      end
  | Plus cls :: rest =>
      match plusThen cls (matchHere rest) s with
      | Some (_, caps) => Some caps
      | None => None
      end
  | Group cls :: rest =>
      match plusThen cls (matchHere rest) s with
      | Some (g, caps) => Some (g :: caps)
      | None => None
      end
  end.

(** [s.match(p)] for a pattern without the global flag: the leftmost
    match; [None] is [null]. *)
Fixpoint search (p : list atom) (s : string) : option (list string) :=
  match matchHere p s with
  | Some caps => Some caps
  | None =>
      match s with
      | String _ r => search p r
      | "" => None
      end
  end.

End Regex.

(** ** Objects on the heap *)

Module Heap.

Abbreviation loc := nat.

(** A JavaScript value: a primitive, or a reference to an object. *)
Inductive value : Type :=
| VUndef
| VNull
| VBool (b : bool)
| VNum (z : Z)
| VNaN
| VStr (s : string)
| VRef (l : loc).

(** An object with its own properties in insertion order, or an array
    with its elements and its named properties. *)
Inductive cell : Type :=
| CObj (props : list (string * value))
| CArr (elems : list value) (props : list (string * value)).

(** [!v] is [negb (truthy v)]. *)
Definition truthy (v : value) : bool :=
  match v with
  | VUndef | VNull | VNaN => false
  | VBool b => b
  | VNum z => negb (z =? 0)%Z
  | VStr s => negb (String.eqb s "")
  | VRef _ => true
  end.

Definition isUndefined (v : value) : bool :=
  match v with
  | VUndef => true
  | _ => false
  end.

(** [c[k]] for a property name [k]; an absent property reads as
    [undefined]. *)
Definition cellGet (c : cell) (k : string) : value :=
  match c with
  | CObj props => default VUndef (Json.getProp props k)
  | CArr elems props =>
      if String.eqb k "length" then VNum (Z.of_nat (length elems))
      else match Json.arrayIndex k with
           | Some i => nth (N.to_nat i) elems VUndef
           | None => default VUndef (Json.getProp props k)
           end
  end.

(** [c[k] = x] for a name [k] that is neither an index nor [length]. *)
Definition cellSet (c : cell) (k : string) (x : value) : cell :=
  match c with
  | CObj props => CObj (Json.setProp props k x)
  | CArr elems props => CArr elems (Json.setProp props k x)
  end.

(** The own enumerable properties that a spread [{...c}] copies, in
    enumeration order. *)
Definition ownProps (c : cell) : list (string * value) :=
  match c with
  | CObj props => Json.ownOrder props
  | CArr elems props =>
      imap (fun i e => (Text.natToString (N.of_nat i), e)) elems
      ++ Json.ownOrder props
  end.

(** A property whose value is turned into a tree by [f]. *)
Definition propM (f : value -> option Json.tree) (kv : string * value)
  : option (string * Json.tree) :=
  (fun t => (fst kv, t)) <$> f (snd kv).

(** The tree that [JSON.stringify] walks from [v].  Every reference
    followed costs one unit of [fuel]; [None] when the fuel runs out. *)
Fixpoint reify (fuel : nat) (h : list cell) (v : value) : option Json.tree :=
  match v with
  | VUndef => Some Json.TUndef
  | VNull => Some Json.TNull
  | VBool b => Some (Json.TBool b)
  | VNum z => Some (Json.TNum z)
  | VNaN => Some Json.TNaN
  | VStr s => Some (Json.TStr s)
  | VRef l =>
      match fuel with
      | O => None
      | S f =>
          match h !! l with
          | Some (CObj props) =>
              Json.TObj <$> mapM (propM (reify f h)) props
          | Some (CArr elems _) => Json.TArr <$> mapM (reify f h) elems
          | None => None
          end
      end
  end.

(** A chain of references through distinct objects is no longer than the
    heap, so this much fuel runs out only on a cycle. *)
Definition snapshot (h : list cell) (v : value) : option Json.tree :=
  reify (S (length h)) h v.

(** The tree of an object that is not on the heap (a literal just
    built). *)
Definition snapshotProps (h : list cell) (props : list (string * value))
  : option Json.tree :=
  Json.TObj <$> mapM (propM (snapshot h)) props.

End Heap.

(** ** The browser around the log *)

Import Heap.

(** What a thrown exception is. *)
Inductive exn : Type :=
| Error (message : string)
| TypeError (message : string)
| SyntaxError (message : string).

(** The completion of a call: a value, or a thrown exception (for an
    [async] function: a fulfilled or a rejected promise). *)
Inductive completion (A : Type) : Type :=
| Ok (a : A)
| Throw (e : exn).
Arguments Ok {A} a.
Arguments Throw {A} e.

(** What the log does to the outside, in the order it does it. *)
Inductive event : Type :=
| SetItem (key text : string)
| RemoveItem (key : string)
| SyncRegister (tag : string)
| ConsoleLog (label : string) (payload : Json.tree)
| ConsoleError (label : string) (err : exn)
| Delay (ms : N)
| Merge (index : nat).

Record World : Type := mkWorld {
  heap : list cell;
  (** [localStorage] *)
  storage : gmap string string;
  (** [navigator.onLine] *)
  onLine : bool;
  (** ['serviceWorker' in navigator && 'SyncManager' in window] *)
  backgroundSync : bool;
  (** The clock, in milliseconds since the epoch: what [Date.now()] and
      [new Date()] read. *)
  clock : N;
  (** The ledger behind [transmitLog].  The source simulates it and never
      fails ([None]); [Some msg] is a ledger that rejects the record and
      throws [Error msg]. *)
  ledgerFault : option string;
  trace : list event
}.

Definition M (A : Type) : Type := World -> completion A * World.

Definition ret {A} (a : A) : M A := fun w => (Ok a, w).

Definition bind {A B} (m : M A) (k : A -> M B) : M B :=
  fun w =>
    match m w with
    | (Ok a, w') => k a w'
    | (Throw e, w') => (Throw e, w')
    end.

Definition throw {A} (e : exn) : M A := fun w => (Throw e, w).

(** [try { body } catch (error) { handler }] *)
Definition tryCatch {A} (body : M A) (handler : exn -> M A) : M A :=
  fun w =>
    match body w with
    | (Ok a, w') => (Ok a, w')
    | (Throw e, w') => handler e w'
    end.

Notation "'do' x <- m ; k" := (bind m (fun x => k))
  (at level 10, x name, m at level 100, k at level 200).
Notation "m ;; k" := (bind m (fun _ => k))
  (at level 100, k at level 200, right associativity).

(** The world with one of its parts replaced. *)
Definition withHeap (w : World) (h : list cell) : World :=
  mkWorld h (storage w) (onLine w) (backgroundSync w) (clock w) (ledgerFault w) (trace w).

Definition withStorage (w : World) (s : gmap string string) : World :=
  mkWorld (heap w) s (onLine w) (backgroundSync w) (clock w) (ledgerFault w) (trace w).


Definition withClock (w : World) (t : N) : World :=
  mkWorld (heap w) (storage w) (onLine w) (backgroundSync w) t (ledgerFault w) (trace w).

(** The world after the events [es] have been added to its trace. *)
Definition logged (w : World) (es : list event) : World :=
  mkWorld (heap w) (storage w) (onLine w) (backgroundSync w) (clock w) (ledgerFault w)
          (trace w ++ es).

Definition emit (e : event) : M unit := fun w => (Ok tt, logged w [e]).

Definition setHeap (h : list cell) : M unit := fun w => (Ok tt, withHeap w h).

Definition setStorage (s : gmap string string) : M unit :=
  fun w => (Ok tt, withStorage w s).


(** [await new Promise(resolve => setTimeout(resolve, ms))] *)
Definition sleep (ms : N) : M unit :=
  fun w => (Ok tt, logged (withClock w (clock w + ms)) [Delay ms]).

Definition ask {A} (f : World -> A) : M A := fun w => (Ok (f w), w).

(** [v.k], for the property names that the log reads. *)
Definition getP (v : value) (k : string) : M value :=
  match v with
  | VUndef | VNull => throw (TypeError "Cannot read properties of undefined or null")
  | VRef l =>
      do h <- ask heap;
      match h !! l with
      | Some c => ret (cellGet c k)
      | None => throw (TypeError "no such object")
      end
  | _ => ret VUndef
  end.

(** [v.k = x] in strict mode (the log is an ES module). *)
Definition setP (v : value) (k : string) (x : value) : M unit :=
  match v with
  | VRef l =>
      do h <- ask heap;
      match h !! l with
      | Some c => setHeap (<[l := cellSet c k x]> h)
      | None => throw (TypeError "no such object")
      end
  | VUndef | VNull => throw (TypeError "Cannot set properties of undefined or null")
  | _ => throw (TypeError "Cannot create property on a primitive")
  end.

(** A fresh object [{}] (or any literal). *)
Definition alloc (c : cell) : M value :=
  do h <- ask heap;
  setHeap (h ++ [c]);;
  ret (VRef (length h)).

(** *** [Date.prototype.toISOString] *)

Module IsoDate.

Definition pad (width : nat) (n : N) : string :=
  Text.padStart width "0" (Text.natToString n).

(** The civil date of a day count since 1970-01-01. *)
Definition civil (days : N) : N * N * N :=
  let z := (days + 719468)%N in
  let era := (z / 146097)%N in
  let doe := (z mod 146097)%N in
  let yoe := ((doe - doe / 1460 + doe / 36524 - doe / 146096) / 365)%N in
  let doy := (doe - (365 * yoe + yoe / 4 - yoe / 100))%N in
  let mp := ((5 * doy + 2) / 153)%N in
  let d := (doy - (153 * mp + 2) / 5 + 1)%N in
  let m := (if mp <? 10 then mp + 3 else mp - 9)%N in
  let y := (yoe + era * 400 + (if m <=? 2 then 1 else 0))%N in
  (y, m, d).

Definition toISOString (ms : N) : string :=
  let '(y, m, d) := civil (ms / 86400000) in
  let t := (ms mod 86400000)%N in
  (if (y <=? 9999)%N then pad 4 y else "+" +:+ pad 6 y)
  +:+ "-" +:+ pad 2 m +:+ "-" +:+ pad 2 d
  +:+ "T" +:+ pad 2 (t / 3600000) +:+ ":" +:+ pad 2 ((t / 60000) mod 60)
  +:+ ":" +:+ pad 2 ((t / 1000) mod 60) +:+ "." +:+ pad 3 (t mod 1000) +:+ "Z".

End IsoDate.

(** ** QCHAIN.js *)

Definition qchainKey : string := "qchain_logs".

(** The pattern [/QS-[0-9a-f]+-(\d+)/]. *)
Definition signaturePattern : list Regex.atom :=
  [Regex.Chr "Q"; Regex.Chr "S"; Regex.Chr "-"; Regex.Plus Text.isLowerHex;
   Regex.Chr "-"; Regex.Group Text.isDigit].

(** [`QS-${hashHex.substring(0, 16)}-${timestamp}`] over the digest of
    [text], the common tail of signing and verification. *)
Definition signatureOf (text timestamp : string) : string :=
  "QS-" +:+ substring 0 16 (hashHex (Sha256.digest (Text.encode text)))
  +:+ "-" +:+ timestamp.

(** The signature that [createQuantumSignature] computes from the tree
    that [JSON.stringify] walks from [data] and the reading [timestamp] of
    [Date.now()].  The sum [JSON.stringify(data) + timestamp] has a number
    on its right: when the left is [undefined] it is the number [NaN]. *)
Definition quantumSignature (data : Json.tree) (timestamp : N) : string :=
  let text :=
    match Json.stringify data with
    | Some json => json +:+ Text.natToString timestamp
    | None => "NaN"
    end in
  signatureOf text (Text.natToString timestamp).

(** [createQuantumSignature(data)] *)
Definition createQuantumSignature (data : value) : M string :=
  do timestamp <- ask clock;
  do h <- ask heap;
  match snapshot h data with
  | Some t => ret (quantumSignature t timestamp)
  | None => throw (TypeError "Converting circular structure to JSON")
  end.

(** [verifyQCHAINSignature(data, signature)].  Here the timestamp is the
    text of the capturing group, so an [undefined] on the left of the sum
    is turned into the string ["undefined"]. *)
Definition verifyQCHAINSignature (data : Json.tree) (signature : string) : bool :=
  match Regex.search signaturePattern signature with
  | None => false
  | Some timestampMatch =>
      let timestamp := nth 0 timestampMatch "undefined" in
      let text :=
        match Json.stringify data with
        | Some json => json +:+ timestamp
        | None => "undefined" +:+ timestamp
        end in
      String.eqb signature (signatureOf text timestamp)
  end.

(** [localStorage.getItem('qchain_logs') || '[]'] *)
Definition storedText (w : World) : string :=
  match storage w !! qchainKey with
  | Some text => if String.eqb text "" then "[]" else text
  | None => "[]"
  end.

Definition parseOrThrow (text : string) : M Json.tree :=
  match Json.parse text with
  | Some t => ret t
  | None => throw (SyntaxError "Unexpected token in JSON")
  end.

(** [storeLocalLog(logData)] *)
Definition storeLocalLog (logData : Json.tree) : M unit :=
  do text <- ask storedText;
  do existingLogs <- parseOrThrow text;
  match existingLogs with
  | Json.TArr logs =>
      let updated := Json.TArr (logs ++ [logData]) in
      let json := default "undefined" (Json.stringify updated) in
      do s <- ask storage;
      setStorage (<[qchainKey := json]> s);;
      emit (SetItem qchainKey json);;
      do sync <- ask backgroundSync;
      if sync then emit (SyncRegister "qchain-sync") else ret tt
  | _ => throw (TypeError "existingLogs.push is not a function")
  end.

Definition transmissionLabel : string := "QCHAIN Transmission:".

(** [transmitLog(logData)]: the [console.log] line stands for the send. *)
Definition transmitLog (logData : Json.tree) : M (string * Json.tree) :=
  emit (ConsoleLog transmissionLabel logData);;
  do fault <- ask ledgerFault;
  match fault with
  | Some msg => throw (Error msg)
  | None =>
      (if Json.truthy (Json.field logData "interplanetary") then sleep 240
       else ret tt);;
      ret ("transmitted", Json.field logData "txId")
  end.

(** [getQCHAINLogs()] *)
Definition getQCHAINLogs : M Json.tree :=
  do text <- ask storedText;
  parseOrThrow text.

(** [clearQCHAINLogs()] *)
Definition clearQCHAINLogs : M unit :=
  do s <- ask storage;
  setStorage (delete qchainKey s);;
  emit (RemoveItem qchainKey).

(** The object literal [{ ...data, signature }], as the tree that is
    stored and sent. *)
Definition spreadWithSignature (data : value) (signature : string) : M Json.tree :=
  do h <- ask heap;
  match data with
  | VRef l =>
      match h !! l with
      | Some c =>
          match snapshotProps h (Json.setProp (ownProps c) "signature" (VStr signature)) with
          | Some t => ret t
          | None => throw (TypeError "Converting circular structure to JSON")
          end
      | None => throw (TypeError "no such object")
      end
  | _ => ret (Json.TObj [("signature", Json.TStr signature)])
  end.

Record LogResult : Type := mkLogResult {
  status : string;
  txId : value;
  signature : string
}.

(** The four defaults that [logQCHAIN] fills in, one [if] each. *)

(** [if (!data.timestamp) data.timestamp = new Date().toISOString()] *)
Definition fillTimestamp (data : value) : M unit :=
  do timestamp <- getP data "timestamp";
  if truthy timestamp then ret tt
  else do now <- ask clock; setP data "timestamp" (VStr (IsoDate.toISOString now)).

(** [if (data.interplanetary === undefined) data.interplanetary = true] *)
Definition fillInterplanetary (data : value) : M unit :=
  do interplanetary <- getP data "interplanetary";
  if isUndefined interplanetary then setP data "interplanetary" (VBool true)
  else ret tt.

(** [if (!data.metrics) data.metrics = {}] *)
Definition fillMetrics (data : value) : M unit :=
  do metrics <- getP data "metrics";
  if truthy metrics then ret tt
  else do fresh <- alloc (CObj []); setP data "metrics" fresh.

(** [if (!data.metrics.compliance) data.metrics.compliance = '100%'] *)
Definition fillCompliance (data : value) : M unit :=
  do metrics <- getP data "metrics";
  do compliance <- getP metrics "compliance";
  if truthy compliance then ret tt
  else setP metrics "compliance" (VStr "100%").

Definition normalize (data : value) : M unit :=
  fillTimestamp data;;
  fillInterplanetary data;;
  fillMetrics data;;
  fillCompliance data.

(** [logQCHAIN(data)] *)
Definition logQCHAIN (data : value) : M LogResult :=
  do event <- getP data "event";
  do missing <- (if truthy event
                 then do txId <- getP data "txId"; ret (negb (truthy txId))
                 else ret true);
  if missing : bool then throw (Error "QCHAIN log requires event and txId fields")
  else
    normalize data;;
    do signature <- createQuantumSignature data;
    do logData <- spreadWithSignature data signature;
    storeLocalLog logData;;
    do online <- ask onLine;
    (if online
     then tryCatch
            (do logData <- spreadWithSignature data signature;
             transmitLog logData;; ret tt)
            (fun error => emit (ConsoleError "Failed to transmit QCHAIN log:" error))
     else ret tt);;
    do txId <- getP data "txId";
    ret (mkLogResult "logged" txId signature).

(** ** The synchronisation pass of the offline stress test *)




(** ** Vocabulary of the statements *)

(** Every character of [s] is in the class [cls]. *)
Fixpoint allChars (cls : ascii -> bool) (s : string) : bool :=
  match s with
  | "" => true
  | String c r => cls c && allChars cls r
  end.

(** [signature] contains a text of the shape QS-hex-digits: the letters
    [QS-], at least one lower-case hex digit, a dash, at least one decimal
    digit. *)
Definition hasSignatureShape (signature : string) : Prop :=
  exists before hex digits after,
    signature = before +:+ "QS-" +:+ hex +:+ "-" +:+ digits +:+ after
    /\ hex <> "" /\ allChars Text.isLowerHex hex = true
    /\ digits <> "" /\ allChars Text.isDigit digits = true.

(** The part of the digest that a signature keeps: the first sixteen hex
    digits of the SHA-256 of [text]. *)
Definition digestPrefix (text : string) : string :=
  substring 0 16 (hashHex (Sha256.digest (Text.encode text))).

(** [rest] does not go on with a character of the class [cls]. *)
Definition stopsAt (cls : ascii -> bool) (rest : string) : Prop :=
  match rest with
  | "" => True
  | String c _ => cls c = false
  end.

(** The text of a value in an array: [null] where it has none. *)
Definition text (t : Json.tree) : string :=
  match Json.stringify t with
  | Some s => s
  | None => "null"
  end.



(** What follows a value inside a text: nothing, a comma or a closing
    bracket. *)
Definition delimited (rest : string) : Prop :=
  match rest with
  | "" => True
  | String c _ => c = ","%char \/ c = "]"%char \/ c = "}"%char
  end.



(** A property with its array index, when its key is one. *)
Definition tagIdx {A} (kv : string * A) : option (N * (string * A)) :=
  (fun n => (n, kv)) <$> Json.arrayIndex (fst kv).

(** A function applied to the value of a property. *)
Definition onValue {A B} (f : A -> B) (kv : string * A) : string * B :=
  (fst kv, f (snd kv)).

Definition onTagged {A B} (f : A -> B) (y : N * (string * A)) : N * (string * B) :=
  (fst y, onValue f (snd y)).




(** The tree of a value that has one. *)
Definition treeOf (fuel : nat) (h : list cell) (v : value) : Json.tree :=
  default Json.TUndef (reify fuel h v).

(** What the literal [{ ...record, signature }] is, on trees. *)
Definition withSignature (record : Json.tree) (signature : string) : Json.tree :=
  match record with
  | Json.TObj props =>
      Json.TObj (Json.setProp (Json.ownOrder props) "signature" (Json.TStr signature))
  | _ => Json.TObj [("signature", Json.TStr signature)]
  end.

(** A value that is not a reference. *)
Definition isPrimitive (v : value) : bool :=
  match v with
  | VRef _ => false
  | _ => true
  end.

(** The object [c] after a default [x] was given to its property [k] when
    the value there was [missing]. *)
Definition defaulted (c : cell) (k : string) (missing : value -> bool) (x : value) : cell :=
  if missing (cellGet c k) then cellSet c k x else c.

Definition falsy (v : value) : bool := negb (truthy v).

(** The names that the log assigns are neither an index nor [length]. *)
Definition plainName (k : string) : Prop :=
  String.eqb k "length" = false /\ Json.arrayIndex k = None.

(** The record [c] once its timestamp and its interplanetary flag have
    their defaults. *)
Definition normalizedCell (now : N) (c : cell) : cell :=
  defaulted (defaulted c "timestamp" falsy (VStr (IsoDate.toISOString now)))
            "interplanetary" isUndefined (VBool true).

(** Where the metrics of the record [c] are once [logQCHAIN] has seen to
    them: the object that the caller supplied, or a new one. *)
Definition metricsTarget (h : list cell) (c : cell) : loc :=
  match cellGet c "metrics" with
  | VRef m => m
  | _ => length h
  end.

(** The caller's [metrics] is absent or falsy, or is an object. *)
Definition metricsOk (h : list cell) (c : cell) : Prop :=
  match cellGet c "metrics" with
  | VRef m => m < length h
  | v => truthy v = false
  end.

(** The heap after the first three defaults, when the record at [l] is
    [c]. *)
Definition stageHeap (now : N) (l : loc) (c : cell) (h : list cell) : list cell :=
  if truthy (cellGet c "metrics") then <[l := normalizedCell now c]> h
  else <[l := cellSet (normalizedCell now c) "metrics" (VRef (length h))]>
         (h ++ [CObj []]).

(** The heap that [normalize] leaves when the record at [l] is [c]. *)
Definition normalizedHeap (now : N) (l : loc) (c : cell) (h : list cell) : list cell :=
  let h3 := stageHeap now l c h in
  let m := metricsTarget h c in
  match h3 !! m with
  | Some cm => <[m := defaulted cm "compliance" falsy (VStr "100%")]> h3
  | None => h3
  end.

(** The record at [l] after the first three defaults. *)
Definition recordAfter (now : N) (c : cell) (h : list cell) : cell :=
  if truthy (cellGet c "metrics") then normalizedCell now c
  else cellSet (normalizedCell now c) "metrics" (VRef (length h)).

Definition isObject (c : cell) : bool :=
  match c with
  | CObj _ => true
  | CArr _ _ => false
  end.

(** The world once [storeLocalLog] has written the text [json]. *)
Definition persisted (w : World) (json : string) : World :=
  logged (withStorage w (<[qchainKey := json]> (storage w)))
         (SetItem qchainKey json
          :: if backgroundSync w then [SyncRegister "qchain-sync"] else []).

(** The world once [logQCHAIN] is through with sending [logData]: nothing
    when off line; the send, then the delay of a long-distance record or
    the report of the ledger's failure, when on line. *)
Definition afterTransmit (w : World) (logData : Json.tree) : World :=
  if onLine w then
    match ledgerFault w with
    | Some msg =>
        logged w [ConsoleLog transmissionLabel logData;
                  ConsoleError "Failed to transmit QCHAIN log:" (Error msg)]
    | None =>
        if Json.truthy (Json.field logData "interplanetary")
        then logged (withClock (logged w [ConsoleLog transmissionLabel logData])
                               (clock w + 240)) [Delay 240]
        else logged w [ConsoleLog transmissionLabel logData]
    end
  else w.



(** A record that [logQCHAIN] accepts and can serialise: an object with
    an [event] and a [txId], whose [metrics] is absent or an object, and
    which holds no cycle. *)
Definition validRecord (w : World) (l : loc) (props : list (string * value)) : Prop :=
  heap w !! l = Some (CObj props)
  /\ truthy (cellGet (CObj props) "event") = true
  /\ truthy (cellGet (CObj props) "txId") = true
  /\ metricsOk (heap w) (CObj props)
  /\ is_Some (snapshot (heap w) (VRef l)).

(** The local store holds the array [logs]. *)
Definition storeHolds (w : World) (logs : list Json.tree) : Prop :=
  Json.parse (storedText w) = Some (Json.TArr logs).


(** The compliance entry of the metrics that the caller supplied, if
    any. *)
Definition suppliedCompliance (h : list cell) (c : cell) : value :=
  match h !! metricsTarget h c with
  | Some cm => cellGet cm "compliance"
  | None => VUndef
  end.

(** *** Example worlds *)

(** Three records a caller has built: one with its own metrics, one
    complete, one bare. *)
Definition exampleHeap : list cell :=
  [CObj [("event", VStr "boot"); ("txId", VStr "TX-1"); ("metrics", VRef 1)];
   CObj [("hour", VNum 3)];
   CObj [("txId", VStr "TX-2"); ("event", VStr "sync"); ("timestamp", VStr "2024-01-01");
         ("interplanetary", VBool false); ("metrics", VRef 3)];
   CObj [("compliance", VStr "97%")];
   CObj [("event", VStr "halt"); ("txId", VStr "TX-3")];
   CObj [("event", VStr ""); ("txId", VStr "TX-4")]].

(** Off line, with an empty store. *)
Definition offlineWorld : World :=
  mkWorld exampleHeap ∅ false true 1700000000000 None [].

(** On line, with a ledger that works. *)
Definition onlineWorld : World :=
  mkWorld exampleHeap ∅ true false 1700000000000 None [].




(** ** Further vocabulary *)

(** A computation that changes the heap and nothing else of the world. *)
Definition heapOnly {A} (m : M A) : Prop :=
  forall w r w', m w = (r, w') -> w' = withHeap w (heap w').

(** The exception is a [TypeError], whatever its message. *)
Definition isTypeError (e : exn) : bool :=
  match e with
  | TypeError _ => true
  | _ => false
  end.


(** A store whose text is not JSON, with the records of the example. *)
Definition corruptWorld : World :=
  mkWorld exampleHeap (<[qchainKey := "{oops"]> ∅) true true 1700000000000 None [].

(** A record whose [metrics] is a number. *)
Definition numberMetricsWorld : World :=
  mkWorld [CObj [("event", VStr "boot"); ("txId", VStr "TX-1"); ("metrics", VNum 5)]]
          ∅ true true 1700000000000 None [].

(** A store that another part of the page uses too. *)
Definition sharedStoreWorld : World :=
  mkWorld exampleHeap (<["theme" := "dark"]> ∅) true false 1700000000000 None [].

(** [s] holds no character of the class [cls]. *)
Fixpoint noneOf (cls : ascii -> bool) (s : string) : bool :=
  match s with
  | "" => true
  | String c r => negb (cls c) && noneOf cls r
  end.

Definition isDash (c : ascii) : bool := Ascii.eqb c "-".

(** *** [createQCHAINTxId] *)

(** [createQCHAINTxId(prefix)]; [None] is a call without a prefix, or with
    [undefined], for which the default ['TX'] stands in.  [draw] is the
    integer that [Math.floor(Math.random() * 1000000)] gave, which is below
    a million. *)
Definition createQCHAINTxId (prefix : option string) (draw : N) : M string :=
  do timestamp <- ask clock;
  let random := Text.padStart 6 "0" (Text.natToString draw) in
  ret (default "TX" prefix +:+ "-" +:+ Text.natToString timestamp +:+ "-" +:+ random).

(** [parseInt(s, 10)] on a text of decimal digits; [None] stands for every
    other text, on which it is not used. *)
Definition parseDigits (s : string) : option N :=
  N.of_uint <$> NilZero.uint_of_string s.

(** ** SpiralCanon.js: the seal of a canon *)

Module SpiralCanon.




End SpiralCanon.

(** ** SpiralClock.js: the calendar arithmetic and the time strings *)

Module SpiralClock.

Definition monthNames : list string :=
  ["Meskerem"; "Tikimt"; "Hidar"; "Tahsas"; "Tir"; "Yekatit";
   "Megabit"; "Miyazia"; "Ginbot"; "Sene"; "Hamle"; "Nehase"; "Pagumē"].

(** [_getEthiopianMonthName(month)] for an integer [month]:
    [monthNames[month - 1] || 'Unknown']. *)
Definition _getEthiopianMonthName (month : Z) : string :=
  match (month - 1)%Z with
  | Zneg _ => "Unknown"
  | i =>
      match monthNames !! Z.to_nat i with
      | Some name => name
      | None => "Unknown"
      end
  end.

(** The month and the day that [_calculateCurrentSpiralTime] derives from
    the number of days since the Ethiopian New Year. *)
Definition ethiopianMonthDay (daysSinceEthiopianNewYear : Z) : Z * Z :=
  let ethiopianMonth := (daysSinceEthiopianNewYear / 30 + 1)%Z in
  let ethiopianDay := (Z.rem daysSinceEthiopianNewYear 30 + 1)%Z in
  if (13 <? ethiopianMonth)%Z
  then (13, daysSinceEthiopianNewYear - 12 * 30 + 1)%Z
  else (ethiopianMonth, ethiopianDay).


(** [n.toString().padStart(width, '0')] *)
Definition padded (width : nat) (n : Z) : string :=
  Text.padStart width "0" (Text.intToString n).






End SpiralClock.



(** * Properties *)

(** ** Strings *)

Section StringFacts.

Lemma sapp_assoc (a b c : string) : (a +:+ b) +:+ c = a +:+ (b +:+ c).
Proof. induction a as [|x a IH]; simpl; [reflexivity | now rewrite IH]. Qed.

Lemma sapp_nil_r (a : string) : a +:+ "" = a.
Proof. induction a as [|x a IH]; simpl; [reflexivity | now rewrite IH]. Qed.

Lemma slength_app (a b : string) :
  String.length (a +:+ b) = String.length a + String.length b.
Proof. induction a as [|x a IH]; simpl; [reflexivity | now rewrite IH]. Qed.

Lemma sapp_inv_head (a b c : string) : a +:+ b = a +:+ c -> b = c.
Proof. induction a as [|x a IH]; simpl; intros H; [assumption|]. injection H as H. auto. Qed.

Lemma sapp_inv_tail (a b c : string) : a +:+ c = b +:+ c -> a = b.
Proof.
  revert b. induction a as [|x a IH]; intros [|y b] H; simpl in *.
  - reflexivity.
  - apply (f_equal String.length) in H. simpl in H. rewrite slength_app in H. lia.
  - apply (f_equal String.length) in H. simpl in H. rewrite slength_app in H. lia.
  - injection H as -> H. f_equal. auto.
Qed.

Lemma allChars_app cls (a b : string) :
  allChars cls (a +:+ b) = allChars cls a && allChars cls b.
Proof.
  induction a as [|x a IH]; simpl; [reflexivity|].
  rewrite IH. now rewrite andb_assoc.
Qed.

Lemma allChars_substring cls (n : nat) (s : string) :
  allChars cls s = true -> allChars cls (substring 0 n s) = true.
Proof.
  revert s. induction n as [|n IH]; intros [|c s]; simpl; try reflexivity.
  intros [Hc Hs]%andb_true_iff. rewrite Hc. simpl. auto.
Qed.

Lemma substring_nonempty (n : nat) (s : string) :
  s <> "" -> substring 0 (S n) s <> "".
Proof. destruct s; simpl; [congruence | discriminate]. Qed.

End StringFacts.

(** ** Digits of numbers and of digests *)

Section Digits.

Lemma string_of_uint_digits (d : Decimal.uint) :
  allChars Text.isDigit (NilEmpty.string_of_uint d) = true.
Proof. induction d; simpl; try reflexivity; assumption. Qed.

Lemma natToString_digits (n : N) :
  allChars Text.isDigit (Text.natToString n) = true.
Proof.
  unfold Text.natToString, NilZero.string_of_uint.
  destruct (N.to_uint n); try reflexivity; apply string_of_uint_digits.
Qed.

Lemma natToString_nonempty (n : N) : Text.natToString n <> "".
Proof.
  unfold Text.natToString, NilZero.string_of_uint.
  destruct (N.to_uint n); simpl; discriminate.
Qed.

Lemma hexChar_lower (d : N) : (d < 16)%N -> Text.isLowerHex (Text.hexChar d) = true.
Proof.
  intros H.
  assert (Hc : In d (map N.of_nat (seq 0 16))).
  { replace d with (N.of_nat (N.to_nat d)) by lia.
    apply in_map, in_seq. lia. }
  simpl in Hc.
  repeat (destruct Hc as [<- | Hc]; [reflexivity|]). destruct Hc.
Qed.

Lemma byteHex_lower (b : N) :
  (b < 256)%N -> allChars Text.isLowerHex (Text.padStart 2 "0" (Text.toString16 b)) = true.
Proof.
  intros H. unfold Text.toString16.
  destruct (b <? 16)%N eqn:E.
  - apply N.ltb_lt in E. cbn. now rewrite hexChar_lower.
  - cbn. rewrite !hexChar_lower; [reflexivity | |].
    + apply N.mod_lt. lia.
    + apply N.Div0.div_lt_upper_bound. lia.
Qed.

Lemma byteHex_nonempty (b : N) : Text.padStart 2 "0" (Text.toString16 b) <> "".
Proof.
  unfold Text.toString16. destruct (b <? 16)%N; cbn; discriminate.
Qed.

Lemma hashHex_lower (bytes : list N) :
  Forall (fun b => (b < 256)%N) bytes ->
  allChars Text.isLowerHex (hashHex bytes) = true.
Proof.
  unfold hashHex. induction 1 as [|b l Hb Hl IH]; [reflexivity|].
  cbn [map Text.join]. destruct (map _ l) eqn:E.
  - now apply byteHex_lower.
  - rewrite allChars_app, byteHex_lower by assumption. exact IH.
Qed.

Lemma hashHex_nonempty (bytes : list N) : bytes <> [] -> hashHex bytes <> "".
Proof.
  unfold hashHex. destruct bytes as [|b l]; [congruence|]. intros _.
  cbn [map Text.join]. destruct (map _ l).
  - apply byteHex_nonempty.
  - intros H. apply (f_equal String.length) in H. rewrite slength_app in H.
    pose proof (byteHex_nonempty b) as Hb.
    destruct (Text.padStart 2 "0" (Text.toString16 b)); [congruence | simpl in H; lia].
Qed.

Lemma bigEndian_bytes (w : nat) (x : N) :
  Forall (fun b => (b < 256)%N) (Sha256.bigEndian w x).
Proof.
  induction w as [|w IH]; simpl; constructor; [|assumption].
  apply N.mod_lt. lia.
Qed.

Lemma zipAdd_length (xs ys : list N) : length (Sha256.zipAdd xs ys) = length xs.
Proof.
  revert ys. induction xs as [|x xs IH]; intros [|y ys]; simpl; auto.
Qed.

Lemma compress_chain_length (blocks : list (list N)) (st : list N) :
  length (fold_left Sha256.compress blocks st) = length st.
Proof.
  revert st. induction blocks as [|b bs IH]; intros st; simpl; [reflexivity|].
  rewrite IH. apply zipAdd_length.
Qed.

(** A digest is thirty-two bytes. *)
Lemma digest_length (msg : list N) : length (Sha256.digest msg) = 32.
Proof.
  unfold Sha256.digest.
  pose proof (compress_chain_length
    (Sha256.toBlocks (length (Sha256.pad msg))
       (Sha256.toWords (length (Sha256.pad msg)) (Sha256.pad msg)))
    Sha256.initialState) as H.
  destruct (fold_left _ _ _) as [|a [|b [|c [|d [|e [|f [|g [|h [|]]]]]]]]];
    simpl in H; try discriminate. reflexivity.
Qed.

Lemma digest_bytes (msg : list N) :
  Forall (fun b => (b < 256)%N) (Sha256.digest msg).
Proof.
  unfold Sha256.digest. generalize (fold_left Sha256.compress
    (Sha256.toBlocks (length (Sha256.pad msg))
       (Sha256.toWords (length (Sha256.pad msg)) (Sha256.pad msg)))
    Sha256.initialState) as st.
  induction st as [|x st IH]; [constructor|].
  cbn [flat_map]. apply Forall_app. split; [apply bigEndian_bytes | exact IH].
Qed.

Lemma digestPrefix_lower (text : string) :
  allChars Text.isLowerHex (digestPrefix text) = true.
Proof. apply allChars_substring, hashHex_lower, digest_bytes. Qed.

Lemma digestPrefix_nonempty (text : string) : digestPrefix text <> "".
Proof.
  apply substring_nonempty, hashHex_nonempty.
  intros H. pose proof (digest_length (Text.encode text)) as L.
  rewrite H in L. discriminate.
Qed.

End Digits.

(** ** The signature pattern *)

Section Pattern.

Lemma plusThen_greedy {A} cls (k : string -> option A) (s rest : string) (out : A) :
  s <> "" -> allChars cls s = true -> stopsAt cls rest -> k rest = Some out ->
  Regex.plusThen cls k (s +:+ rest) = Some (s, out).
Proof.
  induction s as [|d s IH]; [congruence|].
  intros _ [Hd Hs]%andb_true_iff Hstop Hk. simpl. rewrite Hd.
  destruct s as [|e s'].
  - simpl. destruct rest as [|c r]; simpl.
    + now rewrite Hk.
    + simpl in Hstop. now rewrite Hstop, Hk.
  - rewrite IH; [reflexivity | discriminate | assumption..].
Qed.

Lemma plusThen_sound {A} cls (k : string -> option A) (s taken : string) (out : A) :
  Regex.plusThen cls k s = Some (taken, out) ->
  exists rest, s = taken +:+ rest /\ taken <> ""
               /\ allChars cls taken = true /\ k rest = Some out.
Proof.
  revert taken out. induction s as [|d s IH]; intros taken out; simpl; [discriminate|].
  destruct (cls d) eqn:Hd; [|discriminate].
  destruct (Regex.plusThen cls k s) as [[t o]|] eqn:E.
  - intros [= <- <-]. destruct (IH _ _ eq_refl) as (rest & -> & _ & Hall & Hk).
    exists rest. simpl. rewrite Hd, Hall. repeat split; [discriminate | assumption].
  - destruct (k s) as [o|] eqn:Hk; [|discriminate]. intros [= <- <-].
    exists s. simpl. rewrite Hd. repeat split; [discriminate | assumption].
Qed.

Lemma plusThen_complete {A} cls (k : string -> option A) (taken rest : string) :
  taken <> "" -> allChars cls taken = true -> is_Some (k rest) ->
  is_Some (Regex.plusThen cls k (taken +:+ rest)).
Proof.
  induction taken as [|d t IH]; [congruence|].
  intros _ [Hd Ht]%andb_true_iff Hk. simpl. rewrite Hd.
  destruct t as [|e t'].
  - simpl. destruct (Regex.plusThen cls k rest) as [[? ?]|]; [eauto|].
    destruct Hk as [o ->]. eauto.
  - destruct IH as [[? ?] ->]; [discriminate | assumption.. | eauto].
Qed.

Lemma matchHere_chr c rest (s : string) :
  Regex.matchHere (Regex.Chr c :: rest) (String c s) = Regex.matchHere rest s.
Proof. simpl. now rewrite Ascii.eqb_refl. Qed.

Lemma matchHere_plus cls rest (s : string) :
  Regex.matchHere (Regex.Plus cls :: rest) s
  = match Regex.plusThen cls (Regex.matchHere rest) s with
    | Some (_, caps) => Some caps
    | None => None
    end.
Proof. reflexivity. Qed.

Lemma matchHere_group cls rest (s : string) :
  Regex.matchHere (Regex.Group cls :: rest) s
  = match Regex.plusThen cls (Regex.matchHere rest) s with
    | Some (g, caps) => Some (g :: caps)
    | None => None
    end.
Proof. reflexivity. Qed.

Lemma search_here p (s : string) caps :
  Regex.matchHere p s = Some caps -> Regex.search p s = Some caps.
Proof. intros H. destruct s; simpl; now rewrite H. Qed.

(** On a text of the form QS-hex-digits the pattern matches at once and
    captures all the digits. *)
Lemma search_genuine (hex digits : string) :
  hex <> "" -> allChars Text.isLowerHex hex = true ->
  digits <> "" -> allChars Text.isDigit digits = true ->
  Regex.search signaturePattern ("QS-" +:+ hex +:+ "-" +:+ digits) = Some [digits].
Proof.
  intros Hh Hhex Hd Hdig. apply search_here.
  unfold signaturePattern. cbn [String.append].
  rewrite !matchHere_chr, matchHere_plus.
  rewrite (plusThen_greedy _ _ hex _ [digits]); try assumption; try reflexivity.
  rewrite matchHere_chr, matchHere_group.
  rewrite <- (sapp_nil_r digits) at 1.
  rewrite (plusThen_greedy _ _ digits "" []); try assumption; reflexivity.
Qed.

(** Whatever the pattern finds has the shape QS-hex-digits. *)
Lemma search_sound (s : string) caps :
  Regex.search signaturePattern s = Some caps -> hasSignatureShape s.
Proof.
  induction s as [|c s IH].
  - cbn. discriminate.
  - cbn [Regex.search].
    destruct (Regex.matchHere signaturePattern (String c s)) as [found|] eqn:E.
    + intros _. clear IH. unfold signaturePattern in E.
      cbn [Regex.matchHere] in E.
      destruct (Ascii.eqb "Q" c) eqn:E1; [|discriminate].
      apply Ascii.eqb_eq in E1. subst c.
      destruct s as [|c s]; [discriminate|].
      destruct (Ascii.eqb "S" c) eqn:E2; [|discriminate].
      apply Ascii.eqb_eq in E2. subst c.
      destruct s as [|c s]; [discriminate|].
      destruct (Ascii.eqb "-" c) eqn:E3; [|discriminate].
      apply Ascii.eqb_eq in E3. subst c.
      destruct (Regex.plusThen Text.isLowerHex _ s) as [[hex out]|] eqn:P; [|discriminate].
      apply plusThen_sound in P. destruct P as (rest & -> & Hh & Hhex & K).
      cbn [Regex.matchHere] in K.
      destruct rest as [|c rest]; [discriminate|].
      destruct (Ascii.eqb "-" c) eqn:E4; [|discriminate].
      apply Ascii.eqb_eq in E4. subst c.
      destruct (Regex.plusThen Text.isDigit _ rest) as [[digits out']|] eqn:P; [|discriminate].
      apply plusThen_sound in P. destruct P as (after & -> & Hd & Hdig & _).
      exists "", hex, digits, after. repeat split; assumption.
    + intros H. destruct (IH H) as (before & hex & digits & after & -> & Hrest).
      exists (String c before), hex, digits, after. split; [reflexivity | exact Hrest].
Qed.

(** The pattern finds every text that has the shape. *)
Lemma search_complete (s : string) :
  hasSignatureShape s -> is_Some (Regex.search signaturePattern s).
Proof.
  intros (before & hex & digits & after & -> & Hh & Hhex & Hd & Hdig).
  induction before as [|c before IH].
  - apply (mk_is_Some _ (match Regex.matchHere signaturePattern
                                 ("QS-" +:+ hex +:+ "-" +:+ digits +:+ after) with
                         | Some caps => caps | None => [] end)).
    apply search_here.
    unfold signaturePattern. cbn [String.append].
    rewrite !matchHere_chr, matchHere_plus.
    destruct (plusThen_complete Text.isLowerHex
                (Regex.matchHere [Regex.Chr "-"; Regex.Group Text.isDigit])
                hex (String "-" (digits +:+ after)) Hh Hhex) as [[? ?] ->]; [|reflexivity].
    rewrite matchHere_chr, matchHere_group.
    destruct (plusThen_complete Text.isDigit (Regex.matchHere []) digits after Hd Hdig)
      as [[? ?] ->]; [|eauto]. cbn. eauto.
  - cbn [String.append Regex.search].
    destruct (Regex.matchHere signaturePattern _); [eauto | exact IH].
Qed.

End Pattern.

(** ** Signing and verifying *)

Section Signing.

Lemma verify_genuine (text : string) (data : Json.tree) (json : string) (timestamp : N) :
  Json.stringify data = Some json ->
  verifyQCHAINSignature data (signatureOf text (Text.natToString timestamp))
  = String.eqb (digestPrefix text)
               (digestPrefix (json +:+ Text.natToString timestamp)).
Proof.
  intros Hjson. unfold verifyQCHAINSignature, signatureOf.
  fold (digestPrefix text).
  rewrite search_genuine;
    auto using digestPrefix_nonempty, digestPrefix_lower,
               natToString_nonempty, natToString_digits.
  cbn [nth]. rewrite Hjson. fold (digestPrefix (json +:+ Text.natToString timestamp)).
  destruct (String.eqb_spec (digestPrefix text)
              (digestPrefix (json +:+ Text.natToString timestamp))) as [->|Hne].
  - apply String.eqb_refl.
  - apply String.eqb_neq. intros H. apply Hne.
    apply sapp_inv_head in H. apply sapp_inv_tail in H. exact H.
Qed.

(** Signing a value that has a JSON text and verifying it against the
    signature obtained succeeds. *)
Lemma verify_quantumSignature (data : Json.tree) (timestamp : N) :
  is_Some (Json.stringify data) ->
  verifyQCHAINSignature data (quantumSignature data timestamp) = true.
Proof.
  intros [json Hjson]. unfold quantumSignature. rewrite Hjson.
  rewrite (verify_genuine _ data json timestamp Hjson). apply String.eqb_refl.
Qed.

End Signing.

(** C3. The signature that [createQuantumSignature] returns for a record is
    the function [quantumSignature] of the record's content and of the clock
    reading alone, so recomputing it from the same two inputs gives the same
    signature; and [verifyQCHAINSignature] accepts the record with it. *)
Theorem C3_signature_deterministic_and_verified
    (w : World) (data : value) (props : list (string * Json.tree)) :
  snapshot (heap w) data = Some (Json.TObj props) ->
  createQuantumSignature data w
    = (Ok (quantumSignature (Json.TObj props) (clock w)), w)
  /\ verifyQCHAINSignature (Json.TObj props)
       (quantumSignature (Json.TObj props) (clock w)) = true.
Proof.
  intros Hsnap. split.
  - unfold createQuantumSignature, bind, ask, ret. now rewrite Hsnap.
  - apply verify_quantumSignature. cbn. eauto.
Qed.

Lemma C3_witness :
  let w := mkWorld [CObj [("event", VStr "boot"); ("txId", VStr "TX-1")]]
                   ∅ false false 1700000000000 None [] in
  let props := [("event", Json.TStr "boot"); ("txId", Json.TStr "TX-1")] in
  snapshot (heap w) (VRef 0) = Some (Json.TObj props)
  /\ createQuantumSignature (VRef 0) w
       = (Ok (quantumSignature (Json.TObj props) (clock w)), w)
  /\ verifyQCHAINSignature (Json.TObj props)
       (quantumSignature (Json.TObj props) (clock w)) = true.
Proof.
  intros w props.
  assert (H : snapshot (heap w) (VRef 0) = Some (Json.TObj props)) by reflexivity.
  split; [exact H|].
  exact (C3_signature_deterministic_and_verified w (VRef 0) props H).
Defined.

(** C4, as the code has it.  Verifying a changed record against the
    signature of the signed one returns false exactly when the first sixteen
    hex digits of the SHA-256 of its JSON text, followed by the timestamp,
    differ from those of the signed record; a change that leaves the JSON
    text as it was is accepted. *)
Theorem C4_mutation_rejected_iff_digest_differs
    (signed mutated : Json.tree) (json json' : string) (timestamp : N) :
  Json.stringify signed = Some json ->
  Json.stringify mutated = Some json' ->
  (verifyQCHAINSignature mutated (quantumSignature signed timestamp) = false
   <-> digestPrefix (json' +:+ Text.natToString timestamp)
       <> digestPrefix (json +:+ Text.natToString timestamp))
  /\ (json' = json ->
      verifyQCHAINSignature mutated (quantumSignature signed timestamp) = true).
Proof.
  intros Hs Hm. unfold quantumSignature. rewrite Hs.
  rewrite (verify_genuine _ mutated json' timestamp Hm). split.
  - rewrite String.eqb_neq. split; intros H E; apply H; now rewrite E.
  - intros ->. apply String.eqb_refl.
Qed.

Lemma C4_witness :
  let signed := Json.TObj [("event", Json.TStr "merge"); ("txId", Json.TStr "TX-2");
                           ("metrics", Json.TObj [("latency", Json.TNum 7)])] in
  let mutated := Json.TObj [("event", Json.TStr "merge"); ("txId", Json.TStr "TX-2");
                            ("metrics", Json.TObj [("latency", Json.TNum 8)])] in
  verifyQCHAINSignature mutated (quantumSignature signed 1700000000000) = false.
Proof.
  intros signed mutated.
  apply (C4_mutation_rejected_iff_digest_differs signed mutated _ _ 1700000000000
           eq_refl eq_refl).
  vm_compute. discriminate.
Defined.

(** C4 fails as stated: a record whose [metrics.latency] was [NaN] when it
    was signed and is changed to [null] afterwards still verifies, because
    both have the JSON text [null]. *)
Lemma C4_counterexample :
  let signed := Json.TObj [("event", Json.TStr "merge"); ("txId", Json.TStr "TX-2");
                           ("metrics", Json.TObj [("latency", Json.TNaN)])] in
  let mutated := Json.TObj [("event", Json.TStr "merge"); ("txId", Json.TStr "TX-2");
                            ("metrics", Json.TObj [("latency", Json.TNull)])] in
  mutated <> signed
  /\ verifyQCHAINSignature mutated (quantumSignature signed 1700000000000) = true.
Proof.
  intros signed mutated. split; [discriminate | vm_compute; reflexivity].
Qed.

(** C7. A signature string that holds no text of the shape QS-hex-digits
    makes [verifyQCHAINSignature] return false, whatever the data; the
    function is total, so nothing is thrown. *)
Theorem C7_verify_fails_closed (data : Json.tree) (signature : string) :
  ~ hasSignatureShape signature ->
  verifyQCHAINSignature data signature = false.
Proof.
  intros Hshape. unfold verifyQCHAINSignature.
  destruct (Regex.search signaturePattern signature) as [caps|] eqn:E; [|reflexivity].
  exfalso. apply Hshape. exact (search_sound _ _ E).
Qed.

Lemma C7_witness :
  ~ hasSignatureShape "QS-xyz-12"
  /\ verifyQCHAINSignature (Json.TObj [("event", Json.TStr "boot")]) "QS-xyz-12" = false.
Proof.
  assert (H : ~ hasSignatureShape "QS-xyz-12").
  { intros Hs. apply search_complete in Hs. destruct Hs as [caps Hc].
    vm_compute in Hc. discriminate. }
  split; [exact H|].
  exact (C7_verify_fails_closed (Json.TObj [("event", Json.TStr "boot")]) "QS-xyz-12" H).
Defined.

(** ** JSON: parsing what was serialised *)

Section TreeInduction.

Variable P : Json.tree -> Prop.
Hypothesis Hundef : P Json.TUndef.
Hypothesis Hnull : P Json.TNull.
Hypothesis Hbool : forall b, P (Json.TBool b).
Hypothesis Hnum : forall z, P (Json.TNum z).
Hypothesis Hnan : P Json.TNaN.
Hypothesis Hstr : forall s, P (Json.TStr s).
Hypothesis Harr : forall elems, Forall P elems -> P (Json.TArr elems).
Hypothesis Hobj : forall props, Forall (fun kv => P (snd kv)) props -> P (Json.TObj props).


End TreeInduction.

Section JsonText.






Lemma delimited_skipWs (rest : string) : delimited rest -> Json.skipWs rest = rest.
Proof. destruct rest as [|c r]; simpl; [auto|]. intros [-> | [-> | ->]]; reflexivity. Qed.

(** *** Numbers *)


Lemma natToString_parse (n : N) :
  NilZero.uint_of_string (Text.natToString n) = Some (N.to_uint n).
Proof.
  unfold Text.natToString. apply NilZero.usu.
  destruct n as [|p]; [discriminate|].
  intros H. apply (f_equal N.of_uint) in H.
  rewrite DecimalN.Unsigned.of_to in H. discriminate.
Qed.





(** *** Strings *)




End JsonText.

(** *** The enumeration order of properties *)

Section OwnOrder.

Context {A : Type}.

Lemma ownOrder_unfold (l : list (string * A)) :
  Json.ownOrder l
  = (map snd (Json.sortIdx (omap tagIdx l))
     ++ filter (fun kv => Json.arrayIndex (fst kv) = None) l)%list.
Proof. reflexivity. Qed.

Lemma omap_tagIdx_index (kv : string * A) (n : N) (l : list (string * A)) :
  Json.arrayIndex (fst kv) = Some n ->
  omap tagIdx (kv :: l) = (n, kv) :: omap tagIdx l.
Proof. intros H. cbn [omap list_omap]. unfold tagIdx at 1. now rewrite H. Qed.

Lemma omap_tagIdx_name (kv : string * A) (l : list (string * A)) :
  Json.arrayIndex (fst kv) = None ->
  omap tagIdx (kv :: l) = omap tagIdx l.
Proof. intros H. cbn [omap list_omap]. unfold tagIdx at 1. now rewrite H. Qed.

Lemma ownOrder_cons_index (kv : string * A) (n : N) (l : list (string * A)) :
  Json.arrayIndex (fst kv) = Some n ->
  Json.ownOrder (kv :: l)
  = (map snd (Json.insertIdx (n, kv) (Json.sortIdx (omap tagIdx l)))
     ++ filter (fun kv => Json.arrayIndex (fst kv) = None) l)%list.
Proof.
  intros H. rewrite ownOrder_unfold, (omap_tagIdx_index kv n l H).
  rewrite filter_cons. destruct (decide _) as [E|_]; [congruence | reflexivity].
Qed.

Lemma ownOrder_cons_name (kv : string * A) (l : list (string * A)) :
  Json.arrayIndex (fst kv) = None ->
  Json.ownOrder (kv :: l)
  = (map snd (Json.sortIdx (omap tagIdx l))
     ++ kv :: filter (fun kv => Json.arrayIndex (fst kv) = None) l)%list.
Proof.
  intros H. rewrite ownOrder_unfold, (omap_tagIdx_name kv l H).
  rewrite filter_cons. destruct (decide _) as [_|E]; [reflexivity | congruence].
Qed.

Lemma insertIdx_perm {B} (x : N * B) (l : list (N * B)) :
  Json.insertIdx x l ≡ₚ x :: l.
Proof.
  induction l as [|y l IH]; simpl; [reflexivity|].
  destruct (fst x <=? fst y)%N; [reflexivity|].
  rewrite IH. apply Permutation_swap.
Qed.

Lemma ownOrder_perm (l : list (string * A)) : Json.ownOrder l ≡ₚ l.
Proof.
  induction l as [|kv l IH]; [reflexivity|].
  destruct (Json.arrayIndex (fst kv)) as [n|] eqn:E.
  - rewrite (ownOrder_cons_index kv n l E), insertIdx_perm. cbn [map snd].
    cbn [app]. constructor. exact IH.
  - rewrite (ownOrder_cons_name kv l E).
    rewrite <- Permutation_middle. constructor. exact IH.
Qed.

End OwnOrder.

Section OwnOrderMap.

Context {A B : Type} (f : A -> B).

Local Abbreviation onValue := (onValue f).
Local Abbreviation onTagged := (onTagged f).

Lemma insertIdx_map (x : N * (string * A)) (l : list (N * (string * A))) :
  Json.insertIdx (onTagged x) (map onTagged l) = map onTagged (Json.insertIdx x l).
Proof.
  induction l as [|y l IH]; [reflexivity|].
  cbn [map Json.insertIdx onTagged fst]. destruct (fst x <=? fst y)%N; [reflexivity|].
  cbn [map]. f_equal. exact IH.
Qed.

Lemma sortIdx_map (l : list (N * (string * A))) :
  Json.sortIdx (map onTagged l) = map onTagged (Json.sortIdx l).
Proof.
  induction l as [|y l IH]; [reflexivity|].
  cbn [map Json.sortIdx fold_right]. fold (Json.sortIdx (map onTagged l)).
  fold (Json.sortIdx l). rewrite IH. apply insertIdx_map.
Qed.

Lemma omap_tagIdx_map (l : list (string * A)) :
  omap tagIdx (map onValue l) = map onTagged (omap tagIdx l).
Proof.
  induction l as [|kv l IH]; [reflexivity|]. cbn [map].
  destruct (Json.arrayIndex (fst kv)) as [n|] eqn:E.
  - rewrite (omap_tagIdx_index (onValue kv) n) by exact E.
    rewrite (omap_tagIdx_index kv n) by exact E. cbn [map]. now rewrite IH.
  - rewrite (omap_tagIdx_name (onValue kv)) by exact E.
    now rewrite (omap_tagIdx_name kv) by exact E.
Qed.

Lemma filter_name_map (l : list (string * A)) :
  filter (fun kv : string * B => Json.arrayIndex (fst kv) = None) (map onValue l)
  = map onValue (filter (fun kv : string * A => Json.arrayIndex (fst kv) = None) l).
Proof.
  induction l as [|kv l IH]; [reflexivity|]. cbn [map].
  rewrite !filter_cons. cbn [onValue fst].
  destruct (decide (Json.arrayIndex (fst kv) = None)); cbn [map]; now rewrite IH.
Qed.

(** The order depends on the keys alone. *)
Lemma ownOrder_map (l : list (string * A)) :
  Json.ownOrder (map onValue l) = map onValue (Json.ownOrder l).
Proof.
  rewrite !ownOrder_unfold, omap_tagIdx_map, sortIdx_map, filter_name_map, map_app.
  f_equal. rewrite !map_map. reflexivity.
Qed.

End OwnOrderMap.

(** *** Parsing the text of a value *)

Section RoundTrip.














Lemma join_cons (sep a b : string) (l : list string) :
  Text.join sep (a :: b :: l) = a +:+ sep +:+ Text.join sep (b :: l).
Proof. reflexivity. Qed.
















End RoundTrip.

(** *** The JSON copy of a JSON copy *)

Section KeyOrder.

Context {A : Type}.

Lemma sortIdx_perm {B} (l : list (N * B)) : Json.sortIdx l ≡ₚ l.
Proof.
  induction l as [|x l IH]; [reflexivity|].
  cbn [Json.sortIdx fold_right]. fold (Json.sortIdx l).
  now rewrite insertIdx_perm, IH.
Qed.



Lemma omap_tagIdx_tagged (l : list (string * A)) :
  Forall (fun p => Json.arrayIndex (fst (snd p)) = Some (fst p)) (omap tagIdx l).
Proof.
  induction l as [|kv l IH]; [constructor|].
  destruct (Json.arrayIndex (fst kv)) as [n|] eqn:E.
  - rewrite (omap_tagIdx_index kv n l E). now constructor.
  - now rewrite (omap_tagIdx_name kv l E).
Qed.








(** *** Assigning properties one after the other *)



Lemma setProp_values (P : A -> Prop) (acc : list (string * A)) (k : string) (v : A) :
  Forall (fun kv => P (snd kv)) acc -> P v ->
  Forall (fun kv => P (snd kv)) (Json.setProp acc k v).
Proof.
  induction 1 as [|[k' v'] acc H Hacc IH]; intros Hv; cbn [Json.setProp].
  - repeat constructor. exact Hv.
  - destruct (String.eqb k' k); constructor; auto.
Qed.






End KeyOrder.

Section CloneTwice.







End CloneTwice.

(** ** The tree of a value on the heap *)

Section Reify.

Lemma propM_Some (f : value -> option Json.tree) (kv : string * value)
    (kt : string * Json.tree) :
  propM f kv = Some kt <-> exists t, f (snd kv) = Some t /\ kt = (fst kv, t).
Proof. unfold propM. apply fmap_Some. Qed.

Lemma propM_is_Some (f : value -> option Json.tree) (kv : string * value) :
  is_Some (propM f kv) <-> is_Some (f (snd kv)).
Proof. unfold propM. apply fmap_is_Some. Qed.

Lemma mapM_propM (f : value -> option Json.tree) (l : list (string * value)) :
  Forall (fun kv => is_Some (f (snd kv))) l ->
  mapM (propM f) l = Some (map (onValue (fun v => default Json.TUndef (f v))) l).
Proof.
  intros H. apply mapM_Some. induction H as [|kv l [t Ht] Hl IH]; constructor; [|exact IH].
  apply propM_Some. exists t. split; [exact Ht|]. unfold onValue. now rewrite Ht.
Qed.

Lemma mapM_propM_inv (f : value -> option Json.tree) (l : list (string * value)) :
  is_Some (mapM (propM f) l) -> Forall (fun kv => is_Some (f (snd kv))) l.
Proof.
  intros H. apply mapM_is_Some in H.
  eapply Forall_impl; [exact H|]. intros kv Hkv. now apply propM_is_Some in Hkv.
Qed.

Lemma mapM_total (f : value -> option Json.tree) (l : list value) :
  Forall (fun v => is_Some (f v)) l ->
  mapM f l = Some (map (fun v => default Json.TUndef (f v)) l).
Proof.
  intros H. apply mapM_Some. induction H as [|v l [t Ht] Hl IH]; constructor; [|exact IH].
  now rewrite Ht.
Qed.

Lemma reify_primitive (n : nat) (h : list cell) (v : value) :
  isPrimitive v = true -> is_Some (reify n h v).
Proof. destruct v, n; cbn; try discriminate; eauto. Qed.

(** What it takes to walk a reference. *)
Lemma reify_ref (n : nat) (h : list cell) (l : loc) :
  is_Some (reify (S n) h (VRef l)) <->
  match h !! l with
  | Some (CObj props) => Forall (fun kv => is_Some (reify n h (snd kv))) props
  | Some (CArr elems _) => Forall (fun v => is_Some (reify n h v)) elems
  | None => False
  end.
Proof.
  cbn [reify]. destruct (h !! l) as [[props|elems named]|].
  - rewrite fmap_is_Some. split; [apply mapM_propM_inv|].
    intros H. rewrite (mapM_propM _ _ H). eauto.
  - rewrite fmap_is_Some. split.
    + intros H. apply mapM_is_Some in H. exact H.
    + intros H. rewrite (mapM_total _ _ H). eauto.
  - split; [intros [? ?]; discriminate | tauto].
Qed.

Lemma reify_mono (n : nat) :
  forall (m : nat) (h : list cell) (v : value) (t : Json.tree),
    reify n h v = Some t -> n <= m -> reify m h v = Some t.
Proof.
  induction n as [|n IH]; intros m h v t H Hm.
  - destruct v; cbn in H; try discriminate; destruct m; exact H.
  - destruct v; try (destruct m; exact H).
    destruct m as [|m]; [lia|]. cbn [reify] in *.
    destruct (h !! l) as [[props|elems named]|]; [| |discriminate].
    + apply fmap_Some in H as (ts & H & ->).
      apply fmap_Some. exists ts. split; [|reflexivity].
      apply mapM_Some in H. apply mapM_Some.
      eapply Forall2_impl; [exact H|]. intros kv kt Hk.
      apply propM_Some in Hk as (t & Ht & ->). apply propM_Some.
      exists t. split; [|reflexivity]. apply (IH m h _ _ Ht). lia.
    + apply fmap_Some in H as (ts & H & ->).
      apply fmap_Some. exists ts. split; [|reflexivity].
      apply mapM_Some in H. apply mapM_Some.
      eapply Forall2_impl; [exact H|]. intros x y Hxy. apply (IH m h _ _ Hxy). lia.
Qed.

Lemma reify_mono_is_Some (n m : nat) (h : list cell) (v : value) :
  is_Some (reify n h v) -> n <= m -> is_Some (reify m h v).
Proof. intros [t Ht] Hm. exists t. eapply reify_mono; eauto. Qed.

Lemma treeOf_mono (n m : nat) (h : list cell) (v : value) :
  is_Some (reify n h v) -> n <= m -> treeOf m h v = treeOf n h v.
Proof.
  intros [t Ht] Hm. unfold treeOf. now rewrite Ht, (reify_mono n m h v t Ht Hm).
Qed.

(** Allocating an object does not change the tree of a value that was
    there. *)
Lemma reify_grow (n : nat) :
  forall (h : list cell) (c : cell) (v : value) (t : Json.tree),
    reify n h v = Some t -> reify n (h ++ [c]) v = Some t.
Proof.
  induction n as [|n IH]; intros h c v t H.
  - destruct v; cbn in H; try discriminate; exact H.
  - destruct v; try exact H. cbn [reify] in *.
    destruct (h !! l) as [cl|] eqn:E; [|discriminate].
    rewrite (lookup_app_l_Some _ _ _ _ E).
    destruct cl as [props|elems named].
    + apply fmap_Some in H as (ts & H & ->).
      apply fmap_Some. exists ts. split; [|reflexivity].
      apply mapM_Some in H. apply mapM_Some.
      eapply Forall2_impl; [exact H|]. intros kv kt Hk.
      apply propM_Some in Hk as (t & Ht & ->). apply propM_Some.
      exists t. split; [|reflexivity]. now apply IH.
    + apply fmap_Some in H as (ts & H & ->).
      apply fmap_Some. exists ts. split; [|reflexivity].
      apply mapM_Some in H. apply mapM_Some.
      eapply Forall2_impl; [exact H|]. intros x y Hxy. now apply IH.
Qed.

Lemma setProp_Forall {A} (P : A -> Prop) (props : list (string * A)) (k : string) (x : A) :
  Forall (fun kv => P (snd kv)) props -> P x ->
  Forall (fun kv => P (snd kv)) (Json.setProp props k x).
Proof. apply setProp_values. Qed.

(** Assigning a property keeps every value walkable, with [extra] more
    fuel when the assigned value needs it. *)
Lemma reify_set (extra : nat) (h : list cell) (a : loc) (c : cell) (k : string) (x : value) :
  h !! a = Some c ->
  (forall n, is_Some (reify (extra + n) (<[a := cellSet c k x]> h) x)) ->
  forall (n : nat) (v : value),
    is_Some (reify n h v) ->
    is_Some (reify (extra + n) (<[a := cellSet c k x]> h) v).
Proof.
  intros Ha Hx. induction n as [|n IH]; intros v Hv.
  - destruct v; try (apply reify_primitive; reflexivity).
    destruct Hv as [? Hv]. discriminate Hv.
  - destruct v; try (apply reify_primitive; reflexivity).
    rewrite Nat.add_succ_r. apply reify_ref. apply reify_ref in Hv.
    destruct (decide (a = l)) as [->|Hne].
    + rewrite list_lookup_insert_eq by (eapply lookup_lt_Some; eauto).
      rewrite Ha in Hv. destruct c as [props|elems named]; cbn [cellSet].
      * apply (setProp_Forall
                 (fun v => is_Some (reify (extra + n)
                                      (<[l := CObj (Json.setProp props k x)]> h) v)));
          [|apply Hx].
        eapply Forall_impl; [exact Hv|]. intros kv. apply IH.
      * eapply Forall_impl; [exact Hv|]. intros kv. apply IH.
    + rewrite list_lookup_insert_ne by exact Hne.
      destruct (h !! l) as [[props|elems named]|]; [| |exact Hv].
      * eapply Forall_impl; [exact Hv|]. intros kv. apply IH.
      * eapply Forall_impl; [exact Hv|]. intros kv. apply IH.
Qed.

Lemma snapshot_set_primitive (h : list cell) (a : loc) (c : cell) (k : string)
    (x v : value) :
  h !! a = Some c -> isPrimitive x = true ->
  is_Some (snapshot h v) -> is_Some (snapshot (<[a := cellSet c k x]> h) v).
Proof.
  intros Ha Hx Hv. unfold snapshot in *. rewrite length_insert.
  apply (reify_set 0 h a c k x Ha); [|exact Hv].
  intros n. now apply reify_primitive.
Qed.

Lemma snapshot_set_fresh (h : list cell) (a : loc) (c : cell) (k : string) (v : value) :
  h !! a = Some c ->
  is_Some (snapshot h v) ->
  is_Some (snapshot (<[a := cellSet c k (VRef (length h))]> (h ++ [CObj []])) v).
Proof.
  intros Ha Hv. unfold snapshot in *. rewrite length_insert, length_app.
  cbn [length]. replace (S (length h + 1)) with (1 + S (length h)) by lia.
  assert (Ha' : (h ++ [CObj []]) !! a = Some c) by now apply lookup_app_l_Some.
  apply (reify_set 1 (h ++ [CObj []]) a c k (VRef (length h)) Ha').
  - intros n. cbn [Nat.add]. apply reify_ref.
    assert (Hne : a <> length h).
    { apply lookup_lt_Some in Ha. lia. }
    rewrite list_lookup_insert_ne by exact Hne.
    rewrite list_lookup_middle by reflexivity. constructor.
  - destruct Hv as [t Ht]. exists t. now apply reify_grow.
Qed.

End Reify.

(** ** Running the log *)

Section Runs.

Lemma bind_run {A B} (m : M A) (k : A -> M B) (w : World) (a : A) (w' : World) :
  m w = (Ok a, w') -> bind m k w = k a w'.
Proof. intros H. unfold bind. now rewrite H. Qed.

Lemma bind_throw {A B} (m : M A) (k : A -> M B) (w : World) (e : exn) (w' : World) :
  m w = (Throw e, w') -> bind m k w = (Throw e, w').
Proof. intros H. unfold bind. now rewrite H. Qed.

Lemma ask_run {A} (f : World -> A) (w : World) : ask f w = (Ok (f w), w).
Proof. reflexivity. Qed.

Lemma withHeap_same (w : World) : withHeap w (heap w) = w.
Proof. destruct w; reflexivity. Qed.

Lemma getP_run (w : World) (l : loc) (c : cell) (k : string) :
  heap w !! l = Some c -> getP (VRef l) k w = (Ok (cellGet c k), w).
Proof. intros H. unfold getP, bind, ask, ret. now rewrite H. Qed.

Lemma setP_run (w : World) (l : loc) (c : cell) (k : string) (x : value) :
  heap w !! l = Some c ->
  setP (VRef l) k x w = (Ok tt, withHeap w (<[l := cellSet c k x]> (heap w))).
Proof. intros H. unfold setP, bind, ask, setHeap. now rewrite H. Qed.

Lemma fillTimestamp_run (w : World) (l : loc) (c : cell) :
  heap w !! l = Some c ->
  fillTimestamp (VRef l) w
  = (Ok tt, withHeap w (<[l := defaulted c "timestamp" falsy
                                  (VStr (IsoDate.toISOString (clock w)))]> (heap w))).
Proof.
  intros H. unfold fillTimestamp, bind. rewrite (getP_run w l c _ H).
  unfold defaulted, falsy. destruct (truthy (cellGet c "timestamp")); cbn [negb].
  - unfold ret. now rewrite (list_insert_id _ _ _ H), withHeap_same.
  - unfold ask. now rewrite (setP_run w l c _ _ H).
Qed.

Lemma fillInterplanetary_run (w : World) (l : loc) (c : cell) :
  heap w !! l = Some c ->
  fillInterplanetary (VRef l) w
  = (Ok tt, withHeap w (<[l := defaulted c "interplanetary" isUndefined (VBool true)]>
                          (heap w))).
Proof.
  intros H. unfold fillInterplanetary, bind. rewrite (getP_run w l c _ H).
  unfold defaulted. destruct (isUndefined (cellGet c "interplanetary")).
  - now rewrite (setP_run w l c _ _ H).
  - unfold ret. now rewrite (list_insert_id _ _ _ H), withHeap_same.
Qed.

Lemma fillMetrics_run (w : World) (l : loc) (c : cell) :
  heap w !! l = Some c ->
  fillMetrics (VRef l) w
  = (Ok tt,
     if truthy (cellGet c "metrics") then w
     else withHeap w (<[l := cellSet c "metrics" (VRef (length (heap w)))]>
                        (heap w ++ [CObj []]))).
Proof.
  intros H. unfold fillMetrics, bind. rewrite (getP_run w l c _ H).
  destruct (truthy (cellGet c "metrics")); [reflexivity|].
  unfold alloc, bind, ask, setHeap, ret.
  rewrite (setP_run _ l c); [reflexivity|].
  cbn [heap withHeap]. now apply lookup_app_l_Some.
Qed.

Lemma fillCompliance_run (w : World) (l m : loc) (c cm : cell) :
  heap w !! l = Some c -> cellGet c "metrics" = VRef m -> heap w !! m = Some cm ->
  fillCompliance (VRef l) w
  = (Ok tt, withHeap w (<[m := defaulted cm "compliance" falsy (VStr "100%")]> (heap w))).
Proof.
  intros H Hm Hcm. unfold fillCompliance, bind.
  rewrite (getP_run w l c _ H), Hm, (getP_run w m cm _ Hcm).
  unfold defaulted, falsy. destruct (truthy (cellGet cm "compliance")); cbn [negb].
  - unfold ret. now rewrite (list_insert_id _ _ _ Hcm), withHeap_same.
  - now rewrite (setP_run w m cm _ _ Hcm).
Qed.

(** A [metrics] that is a number, a string or [true] cannot take the
    default: in strict mode the assignment throws. *)
Lemma fillCompliance_primitive (w : World) (l : loc) (c : cell) :
  heap w !! l = Some c ->
  truthy (cellGet c "metrics") = true -> isPrimitive (cellGet c "metrics") = true ->
  fillCompliance (VRef l) w
  = (Throw (TypeError "Cannot create property on a primitive"), w).
Proof.
  intros H Ht Hp. unfold fillCompliance, bind. rewrite (getP_run w l c _ H).
  destruct (cellGet c "metrics"); try discriminate; reflexivity.
Qed.

End Runs.

(** ** Reading and assigning properties *)

Section Properties.

Context {A : Type}.

Lemma getProp_setProp_eq (props : list (string * A)) (k : string) (x : A) :
  Json.getProp (Json.setProp props k x) k = Some x.
Proof.
  induction props as [|[k' v'] props IH]; cbn [Json.setProp Json.getProp].
  - now rewrite String.eqb_refl.
  - destruct (String.eqb k' k) eqn:E; cbn [Json.getProp]; rewrite E; [reflexivity | exact IH].
Qed.

Lemma getProp_setProp_ne (props : list (string * A)) (k k' : string) (x : A) :
  k <> k' -> Json.getProp (Json.setProp props k x) k' = Json.getProp props k'.
Proof.
  intros Hne. induction props as [|[k0 v0] props IH]; cbn [Json.setProp Json.getProp].
  - destruct (String.eqb_spec k k'); [contradiction | reflexivity].
  - destruct (String.eqb_spec k0 k) as [->|Hk]; cbn [Json.getProp].
    + destruct (String.eqb_spec k k'); [contradiction | reflexivity].
    + destruct (String.eqb k0 k'); [reflexivity | exact IH].
Qed.

End Properties.

Section Cells.

Lemma cellGet_cellSet_eq (c : cell) (k : string) (x : value) :
  plainName k -> cellGet (cellSet c k x) k = x.
Proof.
  intros [Hl Hi]. destruct c as [props|elems named]; cbn [cellSet cellGet].
  - now rewrite getProp_setProp_eq.
  - now rewrite Hl, Hi, getProp_setProp_eq.
Qed.

Lemma cellGet_cellSet_ne (c : cell) (k k' : string) (x : value) :
  k <> k' -> cellGet (cellSet c k x) k' = cellGet c k'.
Proof.
  intros Hne. destruct c as [props|elems named]; cbn [cellSet cellGet].
  - now rewrite getProp_setProp_ne.
  - destruct (String.eqb k' "length"); [reflexivity|].
    destruct (Json.arrayIndex k'); [reflexivity|].
    now rewrite getProp_setProp_ne.
Qed.

Lemma cellGet_defaulted_ne (c : cell) (k k' : string) miss (x : value) :
  k <> k' -> cellGet (defaulted c k miss x) k' = cellGet c k'.
Proof.
  intros Hne. unfold defaulted. destruct (miss (cellGet c k)); [|reflexivity].
  now apply cellGet_cellSet_ne.
Qed.

Lemma cellGet_defaulted_eq (c : cell) (k : string) miss (x : value) :
  plainName k ->
  cellGet (defaulted c k miss x) k = if miss (cellGet c k) then x else cellGet c k.
Proof.
  intros Hk. unfold defaulted. destruct (miss (cellGet c k)); [|reflexivity].
  now apply cellGet_cellSet_eq.
Qed.

End Cells.

Section Normalize.

Lemma withHeap_withHeap (w : World) (h h' : list cell) :
  withHeap (withHeap w h) h' = withHeap w h'.
Proof. reflexivity. Qed.

Lemma plain_timestamp : plainName "timestamp". Proof. split; reflexivity. Qed.
Lemma plain_interplanetary : plainName "interplanetary". Proof. split; reflexivity. Qed.
Lemma plain_metrics : plainName "metrics". Proof. split; reflexivity. Qed.
Lemma plain_compliance : plainName "compliance". Proof. split; reflexivity. Qed.

Lemma normalizedCell_other (now : N) (c : cell) (k : string) :
  k <> "timestamp" -> k <> "interplanetary" ->
  cellGet (normalizedCell now c) k = cellGet c k.
Proof.
  intros H1 H2. unfold normalizedCell.
  rewrite !cellGet_defaulted_ne by congruence. reflexivity.
Qed.

(** After the first three defaults, which cannot fail, [normalize] comes
    to the fourth. *)
Lemma normalize_split (w : World) (l : loc) (c : cell) :
  heap w !! l = Some c ->
  normalize (VRef l) w
  = fillCompliance (VRef l) (withHeap w (stageHeap (clock w) l c (heap w))).
Proof.
  intros H. pose proof (lookup_lt_Some _ _ _ H) as Hl.
  unfold normalize, bind.
  rewrite (fillTimestamp_run w l c H).
  set (c1 := defaulted c "timestamp" falsy (VStr (IsoDate.toISOString (clock w)))).
  set (w1 := withHeap w (<[l := c1]> (heap w))).
  assert (H1 : heap w1 !! l = Some c1) by (now apply list_lookup_insert_eq).
  rewrite (fillInterplanetary_run w1 l c1 H1).
  set (c2 := defaulted c1 "interplanetary" isUndefined (VBool true)).
  assert (E2 : c2 = normalizedCell (clock w) c) by reflexivity.
  set (w2 := withHeap w1 (<[l := c2]> (heap w1))).
  assert (Hh2 : heap w2 = <[l := c2]> (heap w)).
  { subst w2 w1. cbn [heap withHeap]. apply list_insert_insert_eq. }
  assert (H2 : heap w2 !! l = Some c2).
  { rewrite Hh2. now apply list_lookup_insert_eq. }
  rewrite (fillMetrics_run w2 l c2 H2).
  assert (Em : cellGet c2 "metrics" = cellGet c "metrics").
  { rewrite E2. now apply normalizedCell_other. }
  rewrite Em. unfold stageHeap. rewrite <- E2.
  destruct (truthy (cellGet c "metrics")) eqn:Et.
  - f_equal. rewrite <- Hh2. subst w2 w1. reflexivity.
  - f_equal. rewrite Hh2, length_insert.
    rewrite !insert_app_l by (rewrite ?length_insert; exact Hl).
    rewrite list_insert_insert_eq. subst w2 w1. reflexivity.
Qed.

End Normalize.

(** ** The heap after the defaults *)

Section Normalized.

Lemma snapshot_defaulted (h : list cell) (a : loc) (c : cell) (k : string) miss
    (x v : value) :
  h !! a = Some c -> isPrimitive x = true ->
  is_Some (snapshot h v) -> is_Some (snapshot (<[a := defaulted c k miss x]> h) v).
Proof.
  intros Ha Hx Hv. unfold defaulted. destruct (miss (cellGet c k)).
  - now apply snapshot_set_primitive.
  - now rewrite (list_insert_id _ _ _ Ha).
Qed.

Lemma snapshot_normalizedCell (now : N) (h : list cell) (l : loc) (c : cell) (v : value) :
  h !! l = Some c ->
  is_Some (snapshot h v) -> is_Some (snapshot (<[l := normalizedCell now c]> h) v).
Proof.
  intros H Hv. unfold normalizedCell.
  set (c1 := defaulted c "timestamp" falsy (VStr (IsoDate.toISOString now))).
  rewrite <- (list_insert_insert_eq h l _ c1).
  apply snapshot_defaulted; [|reflexivity|].
  - apply list_lookup_insert_eq. eapply lookup_lt_Some; eauto.
  - now apply snapshot_defaulted.
Qed.

(** The first three defaults leave the record in place. *)
Lemma normalized_stage (now : N) (h : list cell) (l : loc) (c : cell) :
  h !! l = Some c ->
  let h3 := stageHeap now l c h in
  h3 !! l = Some (recordAfter now c h)
  /\ (forall v, is_Some (snapshot h v) -> is_Some (snapshot h3 v))
  /\ (forall a, a <> l -> a < length h -> h3 !! a = h !! a)
  /\ (truthy (cellGet c "metrics") = false -> h3 !! length h = Some (CObj []))
  /\ length h <= length h3.
Proof.
  intros H. pose proof (lookup_lt_Some _ _ _ H) as Hl. unfold recordAfter, stageHeap.
  destruct (truthy (cellGet c "metrics")); cbn zeta.
  - repeat split.
    + now apply list_lookup_insert_eq.
    + intros v. now apply snapshot_normalizedCell.
    + intros a Ha _. now apply list_lookup_insert_ne.
    + discriminate.
    + now rewrite length_insert.
  - repeat split.
    + apply list_lookup_insert_eq. rewrite length_app. lia.
    + intros v Hv.
      pose proof (snapshot_normalizedCell now h l c v H Hv) as Hv2.
      assert (H2 : <[l := normalizedCell now c]> h !! l = Some (normalizedCell now c))
        by now apply list_lookup_insert_eq.
      pose proof (snapshot_set_fresh _ l _ "metrics" v H2 Hv2) as Hv3.
      rewrite length_insert in Hv3.
      rewrite insert_app_l, list_insert_insert_eq in Hv3 by (rewrite length_insert; exact Hl).
      now rewrite insert_app_l by exact Hl.
    + intros a Ha Hlt. rewrite list_lookup_insert_ne by congruence.
      now apply lookup_app_l.
    + intros _. rewrite list_lookup_insert_ne by lia. now apply list_lookup_middle.
    + rewrite length_insert, length_app. lia.
Qed.

Lemma metricsTarget_stage (now : N) (h : list cell) (l : loc) (c : cell) :
  cellGet (recordAfter now c h) "metrics" = VRef (metricsTarget h c)
  \/ (truthy (cellGet c "metrics") = true /\ isPrimitive (cellGet c "metrics") = true).
Proof.
  unfold recordAfter, metricsTarget.
  destruct (truthy (cellGet c "metrics")) eqn:Et.
  - rewrite normalizedCell_other by discriminate.
    destruct (cellGet c "metrics"); auto.
  - left. rewrite cellGet_cellSet_eq by apply plain_metrics.
    destruct (cellGet c "metrics"); try reflexivity. discriminate Et.
Qed.

(** The record after [normalize]: but for [compliance], which it gets only
    when it is its own [metrics], it is the record after the first three
    defaults. *)
Lemma normalized_record (now : N) (h : list cell) (l : loc) (c : cell) :
  h !! l = Some c ->
  exists c', normalizedHeap now l c h !! l = Some c'
             /\ (forall k, k <> "compliance" ->
                           cellGet c' k = cellGet (recordAfter now c h) k)
             /\ isObject c' = isObject c.
Proof.
  intros H. destruct (normalized_stage now h l c H) as (H3 & _ & _ & _ & _).
  unfold normalizedHeap. cbn zeta in *.
  set (h3 := stageHeap now l c h) in *.
  assert (Ho : isObject (recordAfter now c h) = isObject c).
  { unfold recordAfter, normalizedCell, defaulted.
    repeat match goal with |- context [if ?b then _ else _] => destruct b end;
      destruct c; reflexivity. }
  destruct (h3 !! metricsTarget h c) as [cm|] eqn:Em.
  - destruct (decide (metricsTarget h c = l)) as [E|Hne].
    + rewrite E in *. rewrite H3 in Em. injection Em as <-.
      exists (defaulted (recordAfter now c h) "compliance" falsy (VStr "100%")).
      split; [apply list_lookup_insert_eq; eapply lookup_lt_Some; eauto|].
      split.
      * intros k Hk. apply cellGet_defaulted_ne. congruence.
      * rewrite <- Ho. unfold defaulted.
        destruct (falsy _); [|reflexivity]. now destruct (recordAfter now c h).
    + exists (recordAfter now c h). rewrite list_lookup_insert_ne by exact Hne. auto.
  - exists (recordAfter now c h). auto.
Qed.

(** The metrics object after [normalize]. *)
Lemma normalized_metrics (now : N) (h : list cell) (l : loc) (c : cell) :
  h !! l = Some c -> metricsOk h c ->
  exists cm,
    stageHeap now l c h !! metricsTarget h c = Some cm
    /\ normalizedHeap now l c h !! metricsTarget h c
       = Some (defaulted cm "compliance" falsy (VStr "100%")).
Proof.
  intros H Hm.
  destruct (normalized_stage now h l c H) as (H3 & _ & Hother & Hfresh & Hge).
  unfold normalizedHeap. cbn zeta in *.
  set (h3 := stageHeap now l c h) in *.
  assert (Hlen : metricsTarget h c < length h3).
  { unfold metricsTarget, metricsOk in *.
    destruct (cellGet c "metrics") eqn:Ev; try lia.
    all: apply (lookup_lt_Some h3 (length h) (CObj [])), Hfresh; exact Hm. }
  apply lookup_lt_is_Some_2 in Hlen as [cm Hcm].
  exists cm. split; [exact Hcm|]. rewrite Hcm.
  apply list_lookup_insert_eq. eapply lookup_lt_Some; eauto.
Qed.

(** A value that could be serialised before [normalize] can be
    afterwards. *)
Lemma normalized_snapshot (now : N) (h : list cell) (l : loc) (c : cell) (v : value) :
  h !! l = Some c ->
  is_Some (snapshot h v) -> is_Some (snapshot (normalizedHeap now l c h) v).
Proof.
  intros H Hv. destruct (normalized_stage now h l c H) as (_ & Hs & _ & _ & _).
  unfold normalizedHeap. cbn zeta in *.
  set (h3 := stageHeap now l c h) in *.
  destruct (h3 !! metricsTarget h c) as [cm|] eqn:Em; [|now apply Hs].
  apply snapshot_defaulted; [exact Em | reflexivity | now apply Hs].
Qed.

(** What [normalize] does to a record whose [metrics] is well typed. *)
Lemma normalize_run (w : World) (l : loc) (c : cell) :
  heap w !! l = Some c -> metricsOk (heap w) c ->
  normalize (VRef l) w = (Ok tt, withHeap w (normalizedHeap (clock w) l c (heap w))).
Proof.
  intros H Hm. rewrite (normalize_split w l c H).
  destruct (normalized_stage (clock w) (heap w) l c H) as (H3 & _ & _ & _ & _).
  destruct (normalized_metrics (clock w) (heap w) l c H Hm) as (cm & Hcm & _).
  cbn zeta in H3.
  set (w3 := withHeap w (stageHeap (clock w) l c (heap w))).
  destruct (metricsTarget_stage (clock w) (heap w) l c) as [Et | [Et Hp]].
  - rewrite (fillCompliance_run w3 l (metricsTarget (heap w) c) _ cm H3 Et Hcm).
    unfold normalizedHeap. cbn zeta. rewrite Hcm. reflexivity.
  - unfold metricsOk in Hm. destruct (cellGet c "metrics"); try discriminate Hp;
      congruence.
Qed.

(** With a [metrics] that is a number, a string or [true], [normalize]
    throws. *)
Lemma normalize_fails (w : World) (l : loc) (c : cell) :
  heap w !! l = Some c -> ~ metricsOk (heap w) c ->
  exists e w', normalize (VRef l) w = (Throw e, w').
Proof.
  intros H Hm. rewrite (normalize_split w l c H).
  destruct (normalized_stage (clock w) (heap w) l c H) as (H3 & _ & _ & _ & Hge).
  cbn zeta in H3, Hge.
  set (w3 := withHeap w (stageHeap (clock w) l c (heap w))) in *.
  assert (Et : truthy (cellGet c "metrics") = true).
  { unfold metricsOk in Hm. destruct (cellGet c "metrics"); try reflexivity;
      try (destruct (truthy _) eqn:E; [reflexivity | now destruct Hm]);
      now destruct Hm. }
  assert (Em : cellGet (recordAfter (clock w) c (heap w)) "metrics" = cellGet c "metrics").
  { unfold recordAfter. rewrite Et. now apply normalizedCell_other. }
  destruct (cellGet c "metrics") as [| | | | | |m] eqn:Ev.
  1-6: eexists _, _; apply (fillCompliance_primitive w3 l _ H3); rewrite Em; reflexivity || exact Et.
  unfold metricsOk in Hm. rewrite Ev in Hm.
  assert (Hnone : heap w3 !! m = None).
  { apply lookup_ge_None_2. subst w3. cbn [heap withHeap].
    unfold stageHeap. rewrite Ev. cbn [truthy]. rewrite length_insert. lia. }
  eexists _, _. unfold fillCompliance.
  rewrite (bind_run _ _ _ _ _ (getP_run w3 l _ "metrics" H3)), Em.
  apply bind_throw. unfold getP, bind, ask. rewrite Hnone. reflexivity.
Qed.

End Normalized.

(** ** Storing and sending *)

Section Store.

Lemma setProp_map {A B} (f : A -> B) (l : list (string * A)) (k : string) (x : A) :
  map (onValue f) (Json.setProp l k x) = Json.setProp (map (onValue f) l) k (f x).
Proof.
  induction l as [|[k' v'] l IH]; [reflexivity|].
  cbn [Json.setProp map]. unfold onValue at 2. cbn [fst snd].
  destruct (String.eqb k' k); cbn [map]; [reflexivity|]. now rewrite IH.
Qed.

Lemma onValue_ext {A B} (f g : A -> B) (l : list (string * A)) :
  Forall (fun kv => f (snd kv) = g (snd kv)) l -> map (onValue f) l = map (onValue g) l.
Proof.
  induction 1 as [|kv l H Hl IH]; [reflexivity|].
  cbn [map]. unfold onValue at 1 3. now rewrite H, IH.
Qed.

(** The tree of a record that is an object, by its properties. *)
Lemma snapshot_object (h : list cell) (l : loc) (props : list (string * value))
    (record : Json.tree) :
  h !! l = Some (CObj props) -> snapshot h (VRef l) = Some record ->
  Forall (fun kv => is_Some (reify (length h) h (snd kv))) props
  /\ record = Json.TObj (map (onValue (treeOf (length h) h)) props).
Proof.
  intros H Hs. unfold snapshot in Hs. cbn [reify] in Hs. rewrite H in Hs.
  apply fmap_Some in Hs as (ts & Hts & ->).
  assert (HF : Forall (fun kv => is_Some (reify (length h) h (snd kv))) props).
  { apply mapM_propM_inv. eauto. }
  split; [exact HF|]. rewrite (mapM_propM _ _ HF) in Hts. now injection Hts as <-.
Qed.

(** The literal [{ ...data, signature }] is the tree of [data] with the
    signature assigned. *)
Lemma spreadWithSignature_run (w : World) (l : loc) (props : list (string * value))
    (record : Json.tree) (sig : string) :
  heap w !! l = Some (CObj props) -> snapshot (heap w) (VRef l) = Some record ->
  spreadWithSignature (VRef l) sig w = (Ok (withSignature record sig), w).
Proof.
  intros H Hs. destruct (snapshot_object _ _ _ _ H Hs) as [HF ->].
  unfold spreadWithSignature, bind, ask. rewrite H. cbn [ownProps].
  unfold snapshotProps.
  assert (HF' : Forall (fun kv => is_Some (snapshot (heap w) (snd kv)))
                  (Json.setProp (Json.ownOrder props) "signature" (VStr sig))).
  { apply (setProp_Forall (fun v => is_Some (snapshot (heap w) v))); [|cbn; eauto].
    rewrite ownOrder_perm. eapply Forall_impl; [exact HF|].
    intros kv Hkv. unfold snapshot. eapply reify_mono_is_Some; [exact Hkv | lia]. }
  rewrite (mapM_propM _ _ HF'). cbn [fmap option_fmap option_map]. unfold ret.
  f_equal. f_equal. unfold withSignature. f_equal.
  rewrite setProp_map. f_equal.
  rewrite <- ownOrder_map. f_equal.
  apply onValue_ext. eapply Forall_impl; [exact HF|]. intros kv Hkv.
  cbn beta. change (default Json.TUndef (snapshot (heap w) (snd kv)))
    with (treeOf (S (length (heap w))) (heap w) (snd kv)).
  apply treeOf_mono; [exact Hkv | lia].
Qed.

Lemma text_stringify (t : Json.tree) (d : string) :
  is_Some (Json.stringify t) -> default d (Json.stringify t) = text t.
Proof. intros [s Hs]. unfold text. now rewrite Hs. Qed.




(** [storeLocalLog] on a store that holds an array. *)
Lemma storeLocalLog_run (w : World) (logs : list Json.tree) (logData : Json.tree) :
  Json.parse (storedText w) = Some (Json.TArr logs) ->
  storeLocalLog logData w
  = (Ok tt, persisted w (text (Json.TArr (logs ++ [logData])))).
Proof.
  intros H. unfold storeLocalLog, bind, ask, parseOrThrow. rewrite H. unfold ret.
  rewrite text_stringify by (cbn; eauto).
  generalize (text (Json.TArr (logs ++ [logData]))) as json. intros json.
  unfold setStorage, emit, persisted, logged, withStorage. clear H.
  destruct w as [h s o b c f tr].
  cbn [heap storage onLine backgroundSync clock ledgerFault trace].
  destruct b; unfold ret;
    cbn [heap storage onLine backgroundSync clock ledgerFault trace];
    rewrite <- ?app_assoc; reflexivity.
Qed.


Lemma getQCHAINLogs_run (w : World) (t : Json.tree) :
  Json.parse (storedText w) = Some t -> getQCHAINLogs w = (Ok t, w).
Proof. intros H. unfold getQCHAINLogs, bind, ask, parseOrThrow. now rewrite H. Qed.

Lemma getQCHAINLogs_inv (w w' : World) (t : Json.tree) :
  getQCHAINLogs w = (Ok t, w') -> Json.parse (storedText w) = Some t /\ w' = w.
Proof.
  unfold getQCHAINLogs, bind, ask, parseOrThrow.
  destruct (Json.parse (storedText w)); unfold ret, throw; intros [= <- <-]; auto.
Qed.

(** The block [if (navigator.onLine) { try { ... } catch { ... } }]. *)
Lemma transmit_run (w : World) (data : value) (sig : string) (logData : Json.tree) :
  spreadWithSignature data sig w = (Ok logData, w) ->
  (if onLine w
   then tryCatch
          (do logData <- spreadWithSignature data sig; transmitLog logData;; ret tt)
          (fun error => emit (ConsoleError "Failed to transmit QCHAIN log:" error))
   else ret tt) w
  = (Ok tt, afterTransmit w logData).
Proof.
  intros Hs. unfold afterTransmit. destruct (onLine w); [|reflexivity].
  unfold tryCatch, bind. rewrite Hs. unfold transmitLog, bind, emit, ask.
  cbn [ledgerFault logged]. destruct (ledgerFault w) as [msg|].
  - unfold throw, logged.
    cbn [heap storage onLine backgroundSync clock ledgerFault trace].
    rewrite <- app_assoc. reflexivity.
  - destruct (Json.truthy (Json.field logData "interplanetary")).
    + unfold sleep, ret. reflexivity.
    + reflexivity.
Qed.

End Store.

Section Append.

Lemma createQuantumSignature_run (w : World) (data : value) (record : Json.tree) :
  snapshot (heap w) data = Some record ->
  createQuantumSignature data w = (Ok (quantumSignature record (clock w)), w).
Proof. intros H. unfold createQuantumSignature, bind, ask. now rewrite H. Qed.

(** The test [!data.event || !data.txId]. *)
Lemma validation_run (w : World) (l : loc) (c : cell) :
  heap w !! l = Some c ->
  (if truthy (cellGet c "event")
   then do txId <- getP (VRef l) "txId"; ret (negb (truthy txId))
   else ret true) w
  = (Ok (negb (truthy (cellGet c "event") && truthy (cellGet c "txId"))), w).
Proof.
  intros H. destruct (truthy (cellGet c "event")); [|reflexivity].
  now rewrite (bind_run _ _ w _ w (getP_run w l c "txId" H)).
Qed.

Lemma afterTransmit_heap (w : World) (ld : Json.tree) :
  heap (afterTransmit w ld) = heap w.
Proof.
  unfold afterTransmit.
  destruct (onLine w), (ledgerFault w), (Json.truthy (Json.field ld "interplanetary"));
    reflexivity.
Qed.

Lemma afterTransmit_storage (w : World) (ld : Json.tree) :
  storage (afterTransmit w ld) = storage w.
Proof.
  unfold afterTransmit.
  destruct (onLine w), (ledgerFault w), (Json.truthy (Json.field ld "interplanetary"));
    reflexivity.
Qed.

Lemma recordAfter_other (now : N) (c : cell) (h : list cell) (k : string) :
  k <> "timestamp" -> k <> "interplanetary" -> k <> "metrics" ->
  cellGet (recordAfter now c h) k = cellGet c k.
Proof.
  intros H1 H2 H3. unfold recordAfter. destruct (truthy (cellGet c "metrics")).
  - now apply normalizedCell_other.
  - rewrite cellGet_cellSet_ne by congruence. now apply normalizedCell_other.
Qed.

(** A record without [event] or [txId] is refused before anything is
    done. *)
Lemma logQCHAIN_invalid (w : World) (l : loc) (c : cell) :
  heap w !! l = Some c ->
  truthy (cellGet c "event") && truthy (cellGet c "txId") = false ->
  logQCHAIN (VRef l) w
  = (Throw (Error "QCHAIN log requires event and txId fields"), w).
Proof.
  intros H Hv. unfold logQCHAIN.
  rewrite (bind_run _ _ w _ w (getP_run w l c "event" H)).
  rewrite (bind_run _ _ w _ w (validation_run w l c H)).
  now rewrite Hv.
Qed.

(** The literal [{ ...data, signature }] reads the heap and nothing
    else, and changes nothing. *)
Lemma spreadWithSignature_heap (data : value) (sig : string) (w : World) :
  exists r, forall w', heap w' = heap w -> spreadWithSignature data sig w' = (r, w').
Proof.
  unfold spreadWithSignature, bind, ask.
  destruct data as [| | | | | |l]; try (eexists; intros w' E; reflexivity).
  destruct (heap w !! l) as [c|] eqn:E1.
  - destruct (snapshotProps (heap w) (Json.setProp (ownProps c) "signature" (VStr sig)))
      as [t|] eqn:E2; eexists; intros w' E; rewrite E, E1, E2; reflexivity.
  - eexists; intros w' E; rewrite E, E1; reflexivity.
Qed.

Lemma storeLocalLog_fails (w : World) (logData : Json.tree) :
  (forall logs, Json.parse (storedText w) <> Some (Json.TArr logs)) ->
  exists e, storeLocalLog logData w = (Throw e, w).
Proof.
  intros H. unfold storeLocalLog, bind, ask, parseOrThrow.
  destruct (Json.parse (storedText w)) as [t|]; [|eexists; reflexivity].
  destruct t; try (eexists; reflexivity). now destruct (H elems).
Qed.

Lemma metricsOk_dec (h : list cell) (c : cell) : {metricsOk h c} + {~ metricsOk h c}.
Proof.
  unfold metricsOk. destruct (cellGet c "metrics");
    try (left; reflexivity); try apply bool_dec. apply lt_dec.
Qed.

(** Past the test of [event] and [txId]. *)
Lemma logQCHAIN_steps (w : World) (l : loc) (c : cell) :
  heap w !! l = Some c ->
  truthy (cellGet c "event") = true -> truthy (cellGet c "txId") = true ->
  logQCHAIN (VRef l) w
  = (normalize (VRef l);;
     do signature <- createQuantumSignature (VRef l);
     do logData <- spreadWithSignature (VRef l) signature;
     storeLocalLog logData;;
     do online <- ask onLine;
     (if online
      then tryCatch
             (do logData <- spreadWithSignature (VRef l) signature;
              transmitLog logData;; ret tt)
             (fun error => emit (ConsoleError "Failed to transmit QCHAIN log:" error))
      else ret tt);;
     do txId <- getP (VRef l) "txId";
     ret (mkLogResult "logged" txId signature)) w.
Proof.
  intros H Hev Htx. unfold logQCHAIN.
  rewrite (bind_run _ _ w _ w (getP_run w l _ "event" H)).
  rewrite (bind_run _ _ w _ w (validation_run w l _ H)).
  now rewrite Hev, Htx.
Qed.

(** What [logQCHAIN] does once the record is valid, can be serialised and
    the store holds an array. *)
Lemma logQCHAIN_tail (w : World) (l : loc) (c : cell) (record logData : Json.tree)
    (logs : list Json.tree) :
  let h' := normalizedHeap (clock w) l c (heap w) in
  let sig := quantumSignature record (clock w) in
  heap w !! l = Some c ->
  truthy (cellGet c "event") = true -> truthy (cellGet c "txId") = true ->
  metricsOk (heap w) c ->
  snapshot h' (VRef l) = Some record ->
  spreadWithSignature (VRef l) sig (withHeap w h') = (Ok logData, withHeap w h') ->
  Json.parse (storedText w) = Some (Json.TArr logs) ->
  logQCHAIN (VRef l) w
  = (Ok (mkLogResult "logged" (cellGet c "txId") sig),
     afterTransmit (persisted (withHeap w h') (text (Json.TArr (logs ++ [logData]))))
       logData).
Proof.
  intros h' sig H Hev Htx Hm Hrec Hspread Hstore.
  destruct (normalized_record (clock w) (heap w) l c H) as (c' & Hc' & Hk & _).
  fold h' in Hc'.
  rewrite (logQCHAIN_steps w l c H Hev Htx).
  rewrite (bind_run _ _ w _ _ (normalize_run w l _ H Hm)). fold h'.
  rewrite (bind_run _ _ _ _ _ (createQuantumSignature_run (withHeap w h') _ _ Hrec)).
  cbn [clock withHeap]. fold sig.
  rewrite (bind_run _ _ _ _ _ Hspread).
  rewrite (bind_run _ _ _ _ _ (storeLocalLog_run (withHeap w h') logs logData Hstore)).
  set (w2 := persisted (withHeap w h') (text (Json.TArr (logs ++ [logData])))).
  assert (Hs2 : spreadWithSignature (VRef l) sig w2 = (Ok logData, w2)).
  { destruct (spreadWithSignature_heap (VRef l) sig (withHeap w h')) as [r Hr].
    rewrite (Hr (withHeap w h') eq_refl) in Hspread. injection Hspread as ->.
    apply Hr. reflexivity. }
  rewrite (bind_run _ _ _ _ _ (ask_run onLine w2)).
  rewrite (bind_run _ _ _ _ _ (transmit_run w2 (VRef l) sig logData Hs2)).
  assert (H3 : heap (afterTransmit w2 logData) !! l = Some c').
  { rewrite afterTransmit_heap. exact Hc'. }
  rewrite (bind_run _ _ _ _ _ (getP_run _ l _ "txId" H3)). unfold ret.
  rewrite (Hk "txId") by discriminate.
  rewrite recordAfter_other by discriminate. reflexivity.
Qed.

(** What [logQCHAIN] does with a valid record that is a plain object. *)
Lemma logQCHAIN_run (w : World) (l : loc) (props : list (string * value))
    (logs : list Json.tree) :
  heap w !! l = Some (CObj props) ->
  truthy (cellGet (CObj props) "event") = true ->
  truthy (cellGet (CObj props) "txId") = true ->
  metricsOk (heap w) (CObj props) ->
  is_Some (snapshot (heap w) (VRef l)) ->
  Json.parse (storedText w) = Some (Json.TArr logs) ->
  exists tprops,
    snapshot (normalizedHeap (clock w) l (CObj props) (heap w)) (VRef l)
    = Some (Json.TObj tprops)
    /\ logQCHAIN (VRef l) w
       = (Ok (mkLogResult "logged" (cellGet (CObj props) "txId")
                (quantumSignature (Json.TObj tprops) (clock w))),
          afterTransmit
            (persisted (withHeap w (normalizedHeap (clock w) l (CObj props) (heap w)))
               (text (Json.TArr
                        (logs ++ [withSignature (Json.TObj tprops)
                                    (quantumSignature (Json.TObj tprops) (clock w))]))))
            (withSignature (Json.TObj tprops)
               (quantumSignature (Json.TObj tprops) (clock w)))).
Proof.
  intros H Hev Htx Hm Hsnap Hstore.
  set (h' := normalizedHeap (clock w) l (CObj props) (heap w)).
  destruct (normalized_record (clock w) (heap w) l (CObj props) H) as (c' & Hc' & Hk & Ho).
  destruct c' as [props'|]; [|discriminate Ho]. fold h' in Hc'.
  destruct (normalized_snapshot (clock w) (heap w) l (CObj props) (VRef l) H Hsnap)
    as [record Hrec]. fold h' in Hrec.
  destruct (snapshot_object h' l props' record Hc' Hrec) as [_ Erec].
  exists (map (onValue (treeOf (length h') h')) props'). rewrite <- Erec.
  split; [exact Hrec|].
  apply (logQCHAIN_tail w l (CObj props) record); try assumption.
  apply (spreadWithSignature_run (withHeap w h') l props' record); assumption.
Qed.

(** A call of [logQCHAIN] that returned went all the way: the record was
    valid, it could be serialised, and the store held an array. *)
Lemma logQCHAIN_inv (w : World) (l : loc) (c : cell) (res : LogResult) (w' : World) :
  heap w !! l = Some c ->
  logQCHAIN (VRef l) w = (Ok res, w') ->
  let h' := normalizedHeap (clock w) l c (heap w) in
  truthy (cellGet c "event") = true /\ truthy (cellGet c "txId") = true
  /\ metricsOk (heap w) c
  /\ exists record logData logs,
       snapshot h' (VRef l) = Some record
       /\ spreadWithSignature (VRef l) (quantumSignature record (clock w)) (withHeap w h')
          = (Ok logData, withHeap w h')
       /\ Json.parse (storedText w) = Some (Json.TArr logs)
       /\ res = mkLogResult "logged" (cellGet c "txId")
                  (quantumSignature record (clock w))
       /\ w' = afterTransmit
                 (persisted (withHeap w h') (text (Json.TArr (logs ++ [logData]))))
                 logData.
Proof.
  intros H Hrun h'.
  destruct (truthy (cellGet c "event") && truthy (cellGet c "txId")) eqn:Hv.
  2: { rewrite (logQCHAIN_invalid w l c H Hv) in Hrun. discriminate. }
  apply andb_true_iff in Hv as [Hev Htx].
  destruct (metricsOk_dec (heap w) c) as [Hm|Hm].
  2: { destruct (normalize_fails w l c H Hm) as (e & w1 & Hn).
       rewrite (logQCHAIN_steps w l c H Hev Htx) in Hrun.
       rewrite (bind_throw _ _ _ _ _ Hn) in Hrun. discriminate. }
  repeat split; try assumption.
  pose proof Hrun as Hrun0.
  rewrite (logQCHAIN_steps w l c H Hev Htx) in Hrun.
  rewrite (bind_run _ _ w _ _ (normalize_run w l _ H Hm)) in Hrun. fold h' in Hrun.
  destruct (snapshot h' (VRef l)) as [record|] eqn:Hrec.
  2: { unfold createQuantumSignature in Hrun. unfold bind at 1 in Hrun.
       unfold bind at 1 in Hrun. unfold bind at 1 in Hrun.
       cbn [ask heap withHeap] in Hrun. rewrite Hrec in Hrun. discriminate. }
  rewrite (bind_run _ _ _ _ _ (createQuantumSignature_run (withHeap w h') _ _ Hrec))
    in Hrun.
  cbn [clock withHeap] in Hrun.
  set (sig := quantumSignature record (clock w)) in *.
  destruct (spreadWithSignature_heap (VRef l) sig (withHeap w h')) as [r Hr].
  pose proof (Hr (withHeap w h') eq_refl) as Hspread.
  destruct r as [logData|e].
  2: { rewrite (bind_throw _ _ _ _ _ Hspread) in Hrun. discriminate. }
  rewrite (bind_run _ _ _ _ _ Hspread) in Hrun.
  destruct (Json.parse (storedText w)) as [[| | | | | |logs|]|] eqn:Hstore.
  1-6,8-9: destruct (storeLocalLog_fails (withHeap w h') logData) as [e He];
    [intros logs'; change (storedText (withHeap w h')) with (storedText w);
     rewrite Hstore; discriminate
    | rewrite (bind_throw _ _ _ _ _ He) in Hrun; discriminate].
  exists record, logData, logs. split; [reflexivity|]. split; [exact Hspread|].
  split; [reflexivity|].
  rewrite (logQCHAIN_tail w l c record logData logs H Hev Htx Hm Hrec Hspread Hstore)
    in Hrun0.
  injection Hrun0 as <- <-. auto.
Qed.

End Append.

(** ** The claims about [logQCHAIN] *)

Section FinalWorld.





Lemma final_heap (w : World) (h : list cell) (json : string) (ld : Json.tree) :
  heap (afterTransmit (persisted (withHeap w h) json) ld) = h.
Proof. now rewrite afterTransmit_heap. Qed.


End FinalWorld.





Section InPlace.

Lemma normalizedCell_timestamp (now : N) (c : cell) :
  cellGet (normalizedCell now c) "timestamp"
  = if truthy (cellGet c "timestamp") then cellGet c "timestamp"
    else VStr (IsoDate.toISOString now).
Proof.
  unfold normalizedCell. rewrite cellGet_defaulted_ne by discriminate.
  rewrite cellGet_defaulted_eq by apply plain_timestamp.
  unfold falsy. now destruct (truthy (cellGet c "timestamp")).
Qed.

Lemma normalizedCell_interplanetary (now : N) (c : cell) :
  cellGet (normalizedCell now c) "interplanetary"
  = if isUndefined (cellGet c "interplanetary") then VBool true
    else cellGet c "interplanetary".
Proof.
  unfold normalizedCell. rewrite cellGet_defaulted_eq by apply plain_interplanetary.
  now rewrite cellGet_defaulted_ne by discriminate.
Qed.

Lemma recordAfter_flags (now : N) (c : cell) (h : list cell) (k : string) :
  k <> "metrics" ->
  cellGet (recordAfter now c h) k = cellGet (normalizedCell now c) k.
Proof.
  intros Hk. unfold recordAfter. destruct (truthy (cellGet c "metrics")); [reflexivity|].
  apply cellGet_cellSet_ne. congruence.
Qed.

Lemma recordAfter_metrics (now : N) (c : cell) (h : list cell) :
  cellGet (recordAfter now c h) "metrics"
  = if truthy (cellGet c "metrics") then cellGet c "metrics" else VRef (length h).
Proof.
  unfold recordAfter. destruct (truthy (cellGet c "metrics")).
  - now apply normalizedCell_other.
  - apply cellGet_cellSet_eq, plain_metrics.
Qed.

(** The metrics object just before the fourth default holds what the
    caller put there. *)
Lemma stage_compliance (now : N) (h : list cell) (l : loc) (c : cell) :
  h !! l = Some c -> metricsOk h c ->
  exists cm, stageHeap now l c h !! metricsTarget h c = Some cm
             /\ cellGet cm "compliance" = suppliedCompliance h c.
Proof.
  intros H Hm.
  destruct (normalized_stage now h l c H) as (H3 & _ & Hother & Hfresh & _).
  cbn zeta in *. unfold suppliedCompliance.
  destruct (decide (metricsTarget h c = l)) as [E|Hne].
  - rewrite E, H3, H. eexists. split; [reflexivity|].
    rewrite recordAfter_other by discriminate. reflexivity.
  - unfold metricsTarget, metricsOk in *.
    destruct (cellGet c "metrics") as [| | | | | |m] eqn:Ev.
    7: { rewrite (Hother m Hne Hm).
         destruct (lookup_lt_is_Some_2 h m Hm) as [cm Hcm]. rewrite Hcm. eauto. }
    all: rewrite (Hfresh Hm), (lookup_ge_None_2 h (length h)) by lia;
      eexists; split; reflexivity.
Qed.

End InPlace.

(** C9. Whenever [logQCHAIN] returns, the object that the caller passed has
    been changed in place: it holds a timestamp, the interplanetary flag and
    a metrics object, each the caller's own when it was there and the
    default otherwise, and that metrics object holds a compliance entry, the
    caller's own or ['100%'].  The signature is computed from the object as
    changed and returned; no [signature] property is written to the
    object. *)
Theorem C9_defaults_written_into_argument
    (w : World) (l : loc) (c : cell) (res : LogResult) (w' : World) :
  heap w !! l = Some c ->
  logQCHAIN (VRef l) w = (Ok res, w') ->
  exists (c' cm : cell) (record : Json.tree),
    heap w' !! l = Some c'
    /\ cellGet c' "timestamp"
       = (if truthy (cellGet c "timestamp") then cellGet c "timestamp"
          else VStr (IsoDate.toISOString (clock w)))
    /\ cellGet c' "interplanetary"
       = (if isUndefined (cellGet c "interplanetary") then VBool true
          else cellGet c "interplanetary")
    /\ cellGet c' "metrics"
       = (if truthy (cellGet c "metrics") then cellGet c "metrics"
          else VRef (length (heap w)))
    /\ cellGet c' "metrics" = VRef (metricsTarget (heap w) c)
    /\ heap w' !! metricsTarget (heap w) c = Some cm
    /\ cellGet cm "compliance"
       = (if truthy (suppliedCompliance (heap w) c) then suppliedCompliance (heap w) c
          else VStr "100%")
    /\ cellGet c' "signature" = cellGet c "signature"
    /\ snapshot (heap w') (VRef l) = Some record
    /\ signature res = quantumSignature record (clock w).
Proof.
  intros H Hrun.
  destruct (logQCHAIN_inv w l c res w' H Hrun)
    as (Hev & Htx & Hm & record & ld & logs & Hrec & _ & _ & -> & ->).
  rewrite final_heap.
  destruct (normalized_record (clock w) (heap w) l c H) as (c' & Hc' & Hk & _).
  destruct (normalized_metrics (clock w) (heap w) l c H Hm) as (cm & Hcm & Hcm').
  destruct (stage_compliance (clock w) (heap w) l c H Hm) as (cm0 & Hcm0 & Hcompl).
  rewrite Hcm in Hcm0. injection Hcm0 as <-.
  exists c', (defaulted cm "compliance" falsy (VStr "100%")), record.
  split; [exact Hc'|].
  split. { rewrite Hk, recordAfter_flags by discriminate. apply normalizedCell_timestamp. }
  split. { rewrite Hk, recordAfter_flags by discriminate.
           apply normalizedCell_interplanetary. }
  split. { rewrite Hk by discriminate. apply recordAfter_metrics. }
  split.
  { rewrite Hk by discriminate.
    destruct (metricsTarget_stage (clock w) (heap w) l c) as [E | [Et Hp]]; [exact E|].
    unfold metricsOk in Hm. destruct (cellGet c "metrics"); try discriminate Hp; congruence. }
  split; [exact Hcm'|].
  split.
  { rewrite cellGet_defaulted_eq by apply plain_compliance. rewrite Hcompl.
    unfold falsy. now destruct (truthy (suppliedCompliance (heap w) c)). }
  split. { rewrite Hk by discriminate. apply recordAfter_other; discriminate. }
  split; [exact Hrec | reflexivity].
Qed.

Lemma C9_witness :
  heap offlineWorld !! 4 = Some (CObj [("event", VStr "halt"); ("txId", VStr "TX-3")])
  /\ (exists res w', logQCHAIN (VRef 4) offlineWorld = (Ok res, w')
      /\ exists (c' cm : cell),
           heap w' !! 4 = Some c'
           /\ cellGet c' "timestamp" = VStr "2023-11-14T22:13:20.000Z"
           /\ cellGet c' "interplanetary" = VBool true
           /\ cellGet c' "metrics" = VRef 6
           /\ heap w' !! 6 = Some cm
           /\ cellGet cm "compliance" = VStr "100%"
           /\ cellGet c' "signature" = VUndef).
Proof.
  split; [reflexivity|].
  destruct (logQCHAIN (VRef 4) offlineWorld) as [[res|e] w'] eqn:Hrun;
    [|vm_compute in Hrun; discriminate Hrun].
  exists res, w'. split; [reflexivity|].
  destruct (C9_defaults_written_into_argument offlineWorld 4 _ res w' eq_refl Hrun)
    as (c' & cm & record & H1 & H2 & H3 & H4 & _ & H6 & H7 & H8 & _).
  exists c', cm. repeat split; assumption.
Defined.

(** C8, as the code has it.  When the caller supplies a metrics object
    (other than the record itself) and [logQCHAIN] returns, that object is
    as it was, but for the [compliance] entry, which is set to ['100%'] when
    it was absent or falsy. *)
Theorem C8_metrics_gains_only_compliance
    (w : World) (l m : loc) (c cm : cell) (res : LogResult) (w' : World) :
  heap w !! l = Some c -> cellGet c "metrics" = VRef m -> m <> l ->
  heap w !! m = Some cm ->
  logQCHAIN (VRef l) w = (Ok res, w') ->
  heap w' !! m = Some (if truthy (cellGet cm "compliance") then cm
                       else cellSet cm "compliance" (VStr "100%"))
  /\ forall cm', heap w' !! m = Some cm' ->
       forall k, k <> "compliance" -> cellGet cm' k = cellGet cm k.
Proof.
  intros H Hmv Hne Hcm Hrun.
  destruct (logQCHAIN_inv w l c res w' H Hrun)
    as (_ & _ & Hm & record & ld & logs & _ & _ & _ & _ & ->).
  rewrite final_heap.
  destruct (normalized_stage (clock w) (heap w) l c H) as (_ & _ & Hother & _ & _).
  destruct (normalized_metrics (clock w) (heap w) l c H Hm) as (cm0 & Hcm0 & Hfinal).
  assert (Et : metricsTarget (heap w) c = m) by (unfold metricsTarget; now rewrite Hmv).
  rewrite Et in *. cbn zeta in Hother.
  rewrite (Hother m Hne (lookup_lt_Some _ _ _ Hcm)), Hcm in Hcm0. injection Hcm0 as <-.
  assert (E : defaulted cm "compliance" falsy (VStr "100%")
              = if truthy (cellGet cm "compliance") then cm
                else cellSet cm "compliance" (VStr "100%")).
  { unfold defaulted, falsy. now destruct (truthy (cellGet cm "compliance")). }
  rewrite Hfinal, E. split; [reflexivity|].
  intros cm' [= <-] k Hk. rewrite <- E. apply cellGet_defaulted_ne. congruence.
Qed.

Lemma C8_witness :
  heap offlineWorld !! 2
    = Some (CObj [("txId", VStr "TX-2"); ("event", VStr "sync");
                  ("timestamp", VStr "2024-01-01"); ("interplanetary", VBool false);
                  ("metrics", VRef 3)])
  /\ heap offlineWorld !! 3 = Some (CObj [("compliance", VStr "97%")])
  /\ exists res w', logQCHAIN (VRef 2) offlineWorld = (Ok res, w')
                    /\ heap w' !! 3 = Some (CObj [("compliance", VStr "97%")]).
Proof.
  split; [reflexivity|]. split; [reflexivity|].
  destruct (logQCHAIN (VRef 2) offlineWorld) as [[res|e] w'] eqn:Hrun;
    [|vm_compute in Hrun; discriminate Hrun].
  exists res, w'. split; [reflexivity|].
  exact (proj1 (C8_metrics_gains_only_compliance offlineWorld 2 3 _ _ res w'
                  eq_refl eq_refl ltac:(discriminate) eq_refl Hrun)).
Defined.

(** C8 fails as stated: the caller's metrics [{hour: 3}] comes back from
    [logQCHAIN] as [{hour: 3, compliance: '100%'}]. *)
Lemma C8_counterexample :
  heap offlineWorld !! 0
    = Some (CObj [("event", VStr "boot"); ("txId", VStr "TX-1"); ("metrics", VRef 1)])
  /\ heap offlineWorld !! 1 = Some (CObj [("hour", VNum 3)])
  /\ exists res w', logQCHAIN (VRef 0) offlineWorld = (Ok res, w')
       /\ heap w' !! 1 = Some (CObj [("hour", VNum 3); ("compliance", VStr "100%")])
       /\ heap w' !! 1 <> heap offlineWorld !! 1.
Proof.
  split; [reflexivity|]. split; [reflexivity|].
  destruct (logQCHAIN (VRef 0) offlineWorld) as [[res|e] w'] eqn:Hrun;
    vm_compute in Hrun; [|discriminate Hrun].
  injection Hrun as <- <-. eexists _, _. split; [reflexivity|].
  split; [reflexivity | discriminate].
Qed.

(** ** The claims about [getQCHAINLogs] and [simulateSync] *)

Section Pending.

(** Only an object on the heap gets past the validation. *)
Lemma logQCHAIN_ok_ref (data : value) (w : World) (res : LogResult) (w' : World) :
  logQCHAIN data w = (Ok res, w') ->
  exists l c, data = VRef l /\ heap w !! l = Some c.
Proof.
  intros Hrun.
  destruct data as [| |b|z| |s|l];
    try (unfold logQCHAIN in Hrun; cbn [bind getP ret throw truthy] in Hrun;
         discriminate Hrun).
  destruct (heap w !! l) as [c|] eqn:Hc; [eauto|].
  unfold logQCHAIN, getP in Hrun.
  rewrite (bind_throw _ _ w (TypeError "no such object") w) in Hrun;
    [discriminate Hrun|].
  unfold bind, ask, throw. now rewrite Hc.
Qed.





End Pending.




Section Sync.





End Sync.




(** ** The stored record and its signature *)

Section StoredRecord.

(** An object always has a JSON text. *)
Lemma stringify_snapshot (h : list cell) (l : loc) (record : Json.tree) :
  snapshot h (VRef l) = Some record -> is_Some (Json.stringify record).
Proof.
  unfold snapshot. cbn [reify]. intros Hs.
  destruct (h !! l) as [[props|elems props]|]; [| |discriminate Hs];
    destruct (mapM _ _) as [ts|]; try discriminate Hs;
    injection Hs as <-; cbn [Json.stringify]; eauto.
Qed.

(** The signature that [logQCHAIN] returns verifies against the caller's
    object as the call left it, which has no [signature] of the log's
    making. *)
Lemma returned_signature_verifies
    (w : World) (l : loc) (c : cell) (res : LogResult) (w' : World) :
  heap w !! l = Some c ->
  logQCHAIN (VRef l) w = (Ok res, w') ->
  exists record,
    snapshot (heap w') (VRef l) = Some record
    /\ verifyQCHAINSignature record (signature res) = true.
Proof.
  intros H Hrun.
  destruct (logQCHAIN_inv w l c res w' H Hrun)
    as (_ & _ & _ & record & ld & logs & Hrec & _ & _ & -> & ->).
  exists record. rewrite final_heap. split; [exact Hrec|].
  apply verify_quantumSignature. exact (stringify_snapshot _ _ _ Hrec).
Qed.

End StoredRecord.

(** The record as stored, with its [signature], does not verify against
    that signature: here for the bare record of the example. *)
Example stored_record_rejected :
  exists (res : LogResult) (w' : World) (stored : Json.tree),
    logQCHAIN (VRef 4) offlineWorld = (Ok res, w')
    /\ getQCHAINLogs w' = (Ok (Json.TArr [stored]), w')
    /\ Json.field stored "signature" = Json.TStr (signature res)
    /\ verifyQCHAINSignature stored (signature res) = false.
Proof.
  destruct (logQCHAIN (VRef 4) offlineWorld) as [[res|e] w'] eqn:Hrun;
    vm_compute in Hrun; [|discriminate Hrun].
  injection Hrun as <- <-.
  eexists _, _, _. split; [reflexivity|].
  split; [vm_compute; reflexivity|].
  split; vm_compute; reflexivity.
Qed.

(** ** How [logQCHAIN] fails *)

Section HeapOnly.

Lemma heapOnly_ret {A} (a : A) : heapOnly (ret a).
Proof. intros w r w' [= _ <-]. symmetry. apply withHeap_same. Qed.

Lemma heapOnly_throw {A} (e : exn) : heapOnly (@throw A e).
Proof. intros w r w' [= _ <-]. symmetry. apply withHeap_same. Qed.

Lemma heapOnly_ask {A} (f : World -> A) : heapOnly (ask f).
Proof. intros w r w' [= _ <-]. symmetry. apply withHeap_same. Qed.

Lemma heapOnly_setHeap (h : list cell) : heapOnly (setHeap h).
Proof. intros w r w' [= _ <-]. reflexivity. Qed.

Lemma heapOnly_bind {A B} (m : M A) (k : A -> M B) :
  heapOnly m -> (forall a, heapOnly (k a)) -> heapOnly (bind m k).
Proof.
  intros Hm Hk w r w'. unfold bind.
  destruct (m w) as [[a|e] w1] eqn:E.
  - intros Hrun. rewrite (Hk a _ _ _ Hrun), (Hm _ _ _ E) at 1.
    apply withHeap_withHeap.
  - intros [= _ <-]. exact (Hm _ _ _ E).
Qed.

Lemma heapOnly_if {A} (b : bool) (m m' : M A) :
  heapOnly m -> heapOnly m' -> heapOnly (if b then m else m').
Proof. now destruct b. Qed.

Lemma heapOnly_getP (v : value) (k : string) : heapOnly (getP v k).
Proof.
  destruct v; try apply heapOnly_ret; try apply heapOnly_throw.
  apply heapOnly_bind; [apply heapOnly_ask|]. intros h.
  destruct (h !! l); [apply heapOnly_ret | apply heapOnly_throw].
Qed.

Lemma heapOnly_setP (v : value) (k : string) (x : value) : heapOnly (setP v k x).
Proof.
  destruct v; try apply heapOnly_throw.
  apply heapOnly_bind; [apply heapOnly_ask|]. intros h.
  destruct (h !! l); [apply heapOnly_setHeap | apply heapOnly_throw].
Qed.

Lemma heapOnly_alloc (c : cell) : heapOnly (alloc c).
Proof.
  apply heapOnly_bind; [apply heapOnly_ask|]. intros h.
  apply heapOnly_bind; [apply heapOnly_setHeap|]. intros _. apply heapOnly_ret.
Qed.

Lemma heapOnly_normalize (data : value) : heapOnly (normalize data).
Proof.
  unfold normalize, fillTimestamp, fillInterplanetary, fillMetrics, fillCompliance.
  repeat first
    [ apply heapOnly_getP | apply heapOnly_setP | apply heapOnly_alloc
    | apply heapOnly_ask | apply heapOnly_ret
    | apply heapOnly_if
    | apply heapOnly_bind; [|intros ?] ].
Qed.

End HeapOnly.

Section Failures.

(** A call of [logQCHAIN] that throws has changed the heap at most. *)
Lemma logQCHAIN_throw_world (data : value) (w : World) (e : exn) (w' : World) :
  logQCHAIN data w = (Throw e, w') -> w' = withHeap w (heap w').
Proof.
  intros Hrun.
  destruct data as [| |b|z| |s|l];
    try (unfold logQCHAIN in Hrun; cbn [bind getP ret throw truthy] in Hrun;
         injection Hrun as _ <-; symmetry; apply withHeap_same).
  destruct (heap w !! l) as [c|] eqn:H.
  2: { unfold logQCHAIN in Hrun.
       rewrite (bind_throw _ _ w (TypeError "no such object") w) in Hrun.
       - injection Hrun as _ <-. symmetry. apply withHeap_same.
       - unfold getP, bind, ask, throw. now rewrite H. }
  destruct (truthy (cellGet c "event") && truthy (cellGet c "txId")) eqn:Hv.
  2: { rewrite (logQCHAIN_invalid w l c H Hv) in Hrun.
       injection Hrun as _ <-. symmetry. apply withHeap_same. }
  apply andb_true_iff in Hv as [Hev Htx].
  pose proof Hrun as Hrun0.
  rewrite (logQCHAIN_steps w l c H Hev Htx) in Hrun.
  destruct (metricsOk_dec (heap w) c) as [Hm|Hm].
  2: { destruct (normalize_fails w l c H Hm) as (e1 & w1 & Hn).
       rewrite (bind_throw _ _ _ _ _ Hn) in Hrun. injection Hrun as _ <-.
       exact (heapOnly_normalize _ _ _ _ Hn). }
  set (h' := normalizedHeap (clock w) l c (heap w)).
  rewrite (bind_run _ _ w _ _ (normalize_run w l _ H Hm)) in Hrun. fold h' in Hrun.
  destruct (snapshot h' (VRef l)) as [record|] eqn:Hrec.
  2: { unfold createQuantumSignature in Hrun. unfold bind at 1 in Hrun.
       unfold bind at 1 in Hrun. unfold bind at 1 in Hrun.
       cbn [ask heap withHeap] in Hrun. rewrite Hrec in Hrun.
       injection Hrun as _ <-. reflexivity. }
  rewrite (bind_run _ _ _ _ _ (createQuantumSignature_run (withHeap w h') _ _ Hrec))
    in Hrun.
  cbn [clock withHeap] in Hrun.
  set (sig := quantumSignature record (clock w)) in *.
  destruct (spreadWithSignature_heap (VRef l) sig (withHeap w h')) as [r Hr].
  pose proof (Hr (withHeap w h') eq_refl) as Hspread.
  destruct r as [logData|e1].
  2: { rewrite (bind_throw _ _ _ _ _ Hspread) in Hrun.
       injection Hrun as _ <-. reflexivity. }
  rewrite (bind_run _ _ _ _ _ Hspread) in Hrun.
  destruct (Json.parse (storedText w)) as [[| | | | | |logs|]|] eqn:Hstore.
  1-6,8-9: destruct (storeLocalLog_fails (withHeap w h') logData) as [e1 He];
    [intros logs'; change (storedText (withHeap w h')) with (storedText w);
     rewrite Hstore; discriminate
    | rewrite (bind_throw _ _ _ _ _ He) in Hrun; injection Hrun as _ <-; reflexivity].
  rewrite (logQCHAIN_tail w l c record logData logs H Hev Htx Hm Hrec Hspread Hstore)
    in Hrun0.
  discriminate Hrun0.
Qed.

End Failures.

(** X1. A call of [logQCHAIN] that throws, for whatever reason, has written
    nothing to [localStorage], has sent nothing and has logged nothing on
    the console; the clock and the connectivity are as they were. *)
Theorem logQCHAIN_failure_leaves_store
    (data : value) (w : World) (e : exn) (w' : World) :
  logQCHAIN data w = (Throw e, w') ->
  storage w' = storage w /\ trace w' = trace w
  /\ clock w' = clock w /\ onLine w' = onLine w.
Proof.
  intros Hrun. rewrite (logQCHAIN_throw_world data w e w' Hrun).
  repeat split.
Qed.

Lemma logQCHAIN_failure_leaves_store_witness :
  exists e w',
    logQCHAIN (VRef 4) corruptWorld = (Throw e, w')
    /\ storage w' = storage corruptWorld /\ trace w' = [].
Proof.
  destruct (logQCHAIN (VRef 4) corruptWorld) as [[res|e] w'] eqn:Hrun;
    [vm_compute in Hrun; discriminate Hrun|].
  exists e, w'. split; [reflexivity|].
  destruct (logQCHAIN_failure_leaves_store (VRef 4) corruptWorld e w' Hrun)
    as (Hs & Ht & _).
  split; assumption.
Defined.

(** X2. [logQCHAIN(undefined)] and [logQCHAIN(null)] throw a [TypeError]
    at the first property read; any other argument that is not an object
    is refused like a record without [event].  Nothing is changed. *)
Theorem logQCHAIN_not_an_object (data : value) (w : World) :
  isPrimitive data = true ->
  exists e, logQCHAIN data w = (Throw e, w)
    /\ match data with
       | VUndef | VNull => isTypeError e = true
       | _ => e = Error "QCHAIN log requires event and txId fields"
       end.
Proof.
  intros Hp. destruct data; try discriminate Hp;
    eexists; (split; [reflexivity|]); reflexivity.
Qed.

Lemma logQCHAIN_not_an_object_witness :
  exists e, logQCHAIN (VStr "boot") offlineWorld = (Throw e, offlineWorld)
            /\ e = Error "QCHAIN log requires event and txId fields".
Proof. exact (logQCHAIN_not_an_object (VStr "boot") offlineWorld eq_refl). Defined.

(** X3. When [data.metrics] is a truthy value that is not an object (a
    number, a string, [true]), the assignment of the default compliance
    throws a [TypeError] (the module is strict code).  By then the timestamp
    and the interplanetary flag have been written into the caller's object;
    nothing is stored. *)
Theorem logQCHAIN_primitive_metrics (w : World) (l : loc) (c : cell) :
  heap w !! l = Some c ->
  truthy (cellGet c "event") = true -> truthy (cellGet c "txId") = true ->
  truthy (cellGet c "metrics") = true -> isPrimitive (cellGet c "metrics") = true ->
  exists e,
    logQCHAIN (VRef l) w
    = (Throw e, withHeap w (<[l := normalizedCell (clock w) c]> (heap w)))
    /\ isTypeError e = true.
Proof.
  intros H Hev Htx Ht Hp.
  exists (TypeError "Cannot create property on a primitive"). split; [|reflexivity].
  rewrite (logQCHAIN_steps w l c H Hev Htx).
  apply bind_throw. rewrite (normalize_split w l c H).
  unfold stageHeap. rewrite Ht.
  apply (fillCompliance_primitive _ l (normalizedCell (clock w) c)).
  - cbn [heap withHeap]. apply list_lookup_insert_eq. exact (lookup_lt_Some _ _ _ H).
  - rewrite normalizedCell_other by discriminate. exact Ht.
  - rewrite normalizedCell_other by discriminate. exact Hp.
Qed.

Lemma logQCHAIN_primitive_metrics_witness :
  exists e w',
    logQCHAIN (VRef 0) numberMetricsWorld = (Throw e, w')
    /\ isTypeError e = true
    /\ heap w' = [CObj [("event", VStr "boot"); ("txId", VStr "TX-1"); ("metrics", VNum 5);
                        ("timestamp", VStr "2023-11-14T22:13:20.000Z");
                        ("interplanetary", VBool true)]]
    /\ storage w' = ∅.
Proof.
  destruct (logQCHAIN_primitive_metrics numberMetricsWorld 0 _ eq_refl eq_refl eq_refl
              eq_refl eq_refl) as (e & Hrun & He).
  eexists e, _. split; [exact Hrun|]. split; [exact He|]. split; reflexivity.
Defined.



(** ** What [logQCHAIN] leaves alone, and a second call *)

Section Frame.

Lemma normalizedHeap_other (now : N) (h : list cell) (l : loc) (c : cell) (a : loc) :
  h !! l = Some c -> a <> l -> a <> metricsTarget h c ->
  normalizedHeap now l c h !! a = h !! a.
Proof.
  intros H Hl Hm. unfold normalizedHeap.
  assert (E : stageHeap now l c h !! a = h !! a).
  { unfold stageHeap. destruct (truthy (cellGet c "metrics")) eqn:Et.
    - now apply list_lookup_insert_ne.
    - rewrite list_lookup_insert_ne by congruence.
      assert (Em : metricsTarget h c = length h).
      { unfold metricsTarget. destruct (cellGet c "metrics"); try reflexivity.
        discriminate Et. }
      rewrite Em in Hm.
      destruct (decide (a < length h)) as [Hlt|Hge].
      + now apply lookup_app_l.
      + rewrite !lookup_ge_None_2; [reflexivity | lia |].
        rewrite length_app. cbn [length]. lia. }
  destruct (stageHeap now l c h !! metricsTarget h c); [|exact E].
  rewrite list_lookup_insert_ne by congruence. exact E.
Qed.

Lemma normalizedHeap_length (now : N) (h : list cell) (l : loc) (c : cell) :
  length (normalizedHeap now l c h)
  = if truthy (cellGet c "metrics") then length h else S (length h).
Proof.
  unfold normalizedHeap.
  assert (E : length (stageHeap now l c h)
              = if truthy (cellGet c "metrics") then length h else S (length h)).
  { unfold stageHeap. destruct (truthy (cellGet c "metrics"));
      rewrite length_insert; [reflexivity|].
    rewrite length_app. cbn [length]. lia. }
  destruct (stageHeap now l c h !! metricsTarget h c);
    [rewrite length_insert|]; exact E.
Qed.



End Frame.

(** X5. A call of [logQCHAIN] that returns has changed two objects at
    most, the record and its metrics, and has created one object at most,
    the metrics when the record had none; every other object is as it
    was. *)
Theorem logQCHAIN_heap_frame
    (w : World) (l : loc) (c : cell) (res : LogResult) (w' : World) :
  heap w !! l = Some c ->
  logQCHAIN (VRef l) w = (Ok res, w') ->
  (forall a, a <> l -> a <> metricsTarget (heap w) c -> heap w' !! a = heap w !! a)
  /\ length (heap w')
     = if truthy (cellGet c "metrics") then length (heap w) else S (length (heap w)).
Proof.
  intros H Hrun.
  destruct (logQCHAIN_inv w l c res w' H Hrun)
    as (_ & _ & _ & record & ld & logs & _ & _ & _ & _ & ->).
  rewrite final_heap. split.
  - intros a Hl Hm. now apply normalizedHeap_other.
  - apply normalizedHeap_length.
Qed.

Lemma logQCHAIN_heap_frame_witness :
  exists res w',
    logQCHAIN (VRef 4) offlineWorld = (Ok res, w')
    /\ firstn 4 (heap w') = firstn 4 (heap offlineWorld)
    /\ heap w' !! 5 = heap offlineWorld !! 5
    /\ length (heap w') = 7.
Proof.
  destruct (logQCHAIN (VRef 4) offlineWorld) as [[res|e] w'] eqn:Hrun;
    [|vm_compute in Hrun; discriminate Hrun].
  exists res, w'. split; [reflexivity|].
  destruct (logQCHAIN_heap_frame offlineWorld 4 _ res w' eq_refl Hrun) as [Hframe Hlen].
  split; [|split; [|exact Hlen]].
  - apply list_eq. intros i. rewrite !lookup_take.
    destruct (decide (i < 4)) as [Hi|Hi]; [|reflexivity].
    apply Hframe; cbn; lia.
  - apply Hframe; cbn; lia.
Defined.



(** ** The store, the signatures and the identifiers *)

Section StoreKeys.

Lemma persisted_other (w : World) (json k : string) :
  k <> qchainKey -> storage (persisted w json) !! k = storage w !! k.
Proof.
  intros Hk. unfold persisted. cbn [storage logged withStorage].
  apply lookup_insert_ne. congruence.
Qed.

End StoreKeys.

(** X7. [logQCHAIN] writes under the key [qchain_logs] and under no
    other: whatever the call does, every other entry of [localStorage] is
    as it was. *)
Theorem logQCHAIN_other_keys
    (data : value) (w : World) (r : completion LogResult) (w' : World) (k : string) :
  logQCHAIN data w = (r, w') -> k <> qchainKey ->
  storage w' !! k = storage w !! k.
Proof.
  intros Hrun Hk. destruct r as [res|e].
  - destruct (logQCHAIN_ok_ref data w res w' Hrun) as (l & c & -> & Hc).
    destruct (logQCHAIN_inv w l c res w' Hc Hrun)
      as (_ & _ & _ & record & ld & logs & _ & _ & _ & _ & ->).
    rewrite afterTransmit_storage, persisted_other by assumption. reflexivity.
  - now rewrite (logQCHAIN_throw_world data w e w' Hrun).
Qed.

Lemma logQCHAIN_other_keys_witness :
  exists res w',
    logQCHAIN (VRef 0) sharedStoreWorld = (Ok res, w')
    /\ storage w' !! "theme" = Some "dark".
Proof.
  destruct (logQCHAIN (VRef 0) sharedStoreWorld) as [[res|e] w'] eqn:Hrun;
    [|vm_compute in Hrun; discriminate Hrun].
  exists res, w'. split; [reflexivity|].
  exact (logQCHAIN_other_keys (VRef 0) sharedStoreWorld _ w' "theme" Hrun
           ltac:(discriminate)).
Defined.

(** X8. After [clearQCHAINLogs], [getQCHAINLogs] returns the empty array,
    whatever the store held before, a text that is not JSON included.  The
    call removes the one key and touches neither the other keys nor any
    object. *)
Theorem clearQCHAINLogs_empties (w : World) :
  exists w',
    clearQCHAINLogs w = (Ok tt, w')
    /\ getQCHAINLogs w' = (Ok (Json.TArr []), w')
    /\ storage w' !! qchainKey = None
    /\ (forall k, k <> qchainKey -> storage w' !! k = storage w !! k)
    /\ heap w' = heap w
    /\ trace w' = trace w ++ [RemoveItem qchainKey].
Proof.
  eexists. split; [reflexivity|].
  cbn [heap trace storage logged withStorage].
  split; [|split; [apply lookup_delete_eq|split; [|split; reflexivity]]].
  - apply getQCHAINLogs_run. unfold storedText.
    cbn [storage logged withStorage]. rewrite lookup_delete_eq. reflexivity.
  - intros k Hk. apply lookup_delete_ne. congruence.
Qed.


Section Accepted.

(** What the pattern captures is the run of digits after the dash. *)
Lemma search_captures (s : string) caps :
  Regex.search signaturePattern s = Some caps ->
  exists digits, caps = [digits] /\ digits <> "" /\ allChars Text.isDigit digits = true.
Proof.
  induction s as [|c s IH].
  - cbn. discriminate.
  - cbn [Regex.search].
    destruct (Regex.matchHere signaturePattern (String c s)) as [found|] eqn:E;
      [|exact IH].
    intros [= <-]. clear IH. unfold signaturePattern in E.
    cbn [Regex.matchHere] in E.
    destruct (Ascii.eqb "Q" c); [|discriminate].
    destruct s as [|c1 s]; [discriminate|].
    destruct (Ascii.eqb "S" c1); [|discriminate].
    destruct s as [|c2 s]; [discriminate|].
    destruct (Ascii.eqb "-" c2); [|discriminate].
    destruct (Regex.plusThen Text.isLowerHex _ s) as [[hex out]|] eqn:P; [|discriminate].
    injection E as <-.
    apply plusThen_sound in P. destruct P as (rest & -> & _ & _ & K).
    cbn [Regex.matchHere] in K.
    destruct rest as [|c3 rest]; [discriminate|].
    destruct (Ascii.eqb "-" c3); [|discriminate].
    destruct (Regex.plusThen Text.isDigit _ rest) as [[digits out']|] eqn:P; [|discriminate].
    injection K as <-.
    apply plusThen_sound in P. destruct P as (after & -> & Hd & Hdig & K).
    cbn in K. injection K as <-.
    exists digits. repeat split; assumption.
Qed.

Lemma substring_length (n : nat) (s : string) :
  n <= String.length s -> String.length (substring 0 n s) = n.
Proof.
  revert s. induction n as [|n IH]; intros [|c s] Hn; cbn in *;
    try lia; try reflexivity.
  rewrite IH; lia.
Qed.

Lemma hashHex_length (bytes : list N) :
  Forall (fun b => (b < 256)%N) bytes ->
  String.length (hashHex bytes) = 2 * length bytes.
Proof.
  unfold hashHex. induction 1 as [|b bytes Hb _ IH].
  - reflexivity.
  - cbn [map List.map]. change (String.length (Text.join "" (?x :: ?l))) with
      (String.length (Text.join "" (x :: l))).
    destruct bytes as [|b' bytes'].
    + cbn [map List.map Text.join length]. unfold Text.padStart, Text.toString16.
      destruct (b <? 16)%N; reflexivity.
    + cbn [map List.map] in *. rewrite join_cons, !slength_app, IH.
      cbn [String.length length]. unfold Text.padStart, Text.toString16.
      destruct (b <? 16)%N; cbn; lia.
Qed.

Lemma digestPrefix_length (text : string) : String.length (digestPrefix text) = 16.
Proof.
  unfold digestPrefix. apply substring_length.
  rewrite hashHex_length by apply digest_bytes.
  rewrite digest_length. lia.
Qed.

Lemma quantumSignature_search (data : Json.tree) (timestamp : N) :
  Regex.search signaturePattern (quantumSignature data timestamp)
  = Some [Text.natToString timestamp].
Proof.
  unfold quantumSignature, signatureOf. apply search_genuine.
  - apply (digestPrefix_nonempty _).
  - apply (digestPrefix_lower _).
  - apply natToString_nonempty.
  - apply natToString_digits.
Qed.

End Accepted.

(** X10. [verifyQCHAINSignature] accepts a signature for [data] exactly
    when the whole of it is [QS-], the first sixteen hex digits of the
    SHA-256 of the JSON text of [data] followed by some decimal digits, a
    dash, and those same digits.  Text before or after that is not
    tolerated, although the pattern is not anchored. *)
Theorem verifyQCHAINSignature_accepts_iff (data : Json.tree) (signature : string) :
  verifyQCHAINSignature data signature = true
  <-> exists timestamp,
        timestamp <> "" /\ allChars Text.isDigit timestamp = true
        /\ signature
           = "QS-" +:+ digestPrefix (default "undefined" (Json.stringify data) +:+ timestamp)
             +:+ "-" +:+ timestamp.
Proof.
  unfold verifyQCHAINSignature. split.
  - destruct (Regex.search signaturePattern signature) as [caps|] eqn:E; [|discriminate].
    destruct (search_captures _ _ E) as (digits & -> & Hd & Hdig).
    cbn [nth]. intros Heq. apply String.eqb_eq in Heq.
    exists digits. repeat split; try assumption.
    rewrite Heq at 1. unfold signatureOf, digestPrefix.
    now destruct (Json.stringify data).
  - intros (ts & Hd & Hdig & ->).
    rewrite search_genuine;
      [|apply digestPrefix_nonempty | apply digestPrefix_lower | assumption..].
    cbn [nth]. apply String.eqb_eq. unfold signatureOf, digestPrefix.
    now destruct (Json.stringify data).
Qed.

(** X11. Every signature that [createQuantumSignature] computes is [QS-],
    sixteen lower-case hex digits, a dash and the decimal digits of the
    clock: the pattern of [verifyQCHAINSignature] finds it and captures the
    clock. *)
Theorem quantumSignature_shape (data : Json.tree) (timestamp : N) :
  exists hex,
    quantumSignature data timestamp = "QS-" +:+ hex +:+ "-" +:+ Text.natToString timestamp
    /\ String.length hex = 16
    /\ allChars Text.isLowerHex hex = true
    /\ Regex.search signaturePattern (quantumSignature data timestamp)
       = Some [Text.natToString timestamp].
Proof.
  unfold quantumSignature, signatureOf.
  set (text := match Json.stringify data with
               | Some json => json +:+ Text.natToString timestamp
               | None => "NaN"
               end).
  exists (digestPrefix text). fold (digestPrefix text).
  split; [reflexivity|]. split; [apply digestPrefix_length|].
  split; [apply digestPrefix_lower|].
  apply quantumSignature_search.
Qed.



(** X19. When [logQCHAIN] returns, the signature it returns verifies
    against the object that the caller passed, as the call left it, and the
    digits at its end are the clock at the call. *)
Theorem logQCHAIN_signature_verifies
    (w : World) (l : loc) (c : cell) (res : LogResult) (w' : World) :
  heap w !! l = Some c ->
  logQCHAIN (VRef l) w = (Ok res, w') ->
  exists record,
    snapshot (heap w') (VRef l) = Some record
    /\ verifyQCHAINSignature record (signature res) = true
    /\ Regex.search signaturePattern (signature res)
       = Some [Text.natToString (clock w)].
Proof.
  intros H Hrun.
  destruct (logQCHAIN_inv w l c res w' H Hrun)
    as (_ & _ & _ & record & ld & logs & Hrec & _ & _ & -> & ->).
  exists record. rewrite final_heap. split; [exact Hrec|]. cbn [signature]. split.
  - apply verify_quantumSignature. exact (stringify_snapshot _ _ _ Hrec).
  - apply quantumSignature_search.
Qed.

Lemma logQCHAIN_signature_verifies_witness :
  exists res w' record,
    logQCHAIN (VRef 0) onlineWorld = (Ok res, w')
    /\ snapshot (heap w') (VRef 0) = Some record
    /\ verifyQCHAINSignature record (signature res) = true
    /\ Regex.search signaturePattern (signature res) = Some ["1700000000000"].
Proof.
  destruct (logQCHAIN (VRef 0) onlineWorld) as [[res|e] w'] eqn:Hrun;
    [|vm_compute in Hrun; discriminate Hrun].
  destruct (logQCHAIN_signature_verifies onlineWorld 0 _ res w' eq_refl Hrun)
    as (record & H1 & H2 & H3).
  exists res, w', record. split; [reflexivity|]. repeat split; assumption.
Defined.



(** ** Transaction identifiers *)

Section Digits.

Lemma parseDigits_natToString (n : N) : parseDigits (Text.natToString n) = Some n.
Proof.
  unfold parseDigits. rewrite natToString_parse. cbn.
  now rewrite DecimalN.Unsigned.of_to.
Qed.

Lemma natToString_inj (a b : N) : Text.natToString a = Text.natToString b -> a = b.
Proof.
  intros E. apply (f_equal parseDigits) in E.
  rewrite !parseDigits_natToString in E. congruence.
Qed.

Lemma uint_of_string_zero (s : string) :
  s <> "" ->
  NilEmpty.uint_of_string (String "0" s) = Decimal.D0 <$> NilEmpty.uint_of_string s.
Proof.
  intros _. cbn [NilEmpty.uint_of_string].
  now destruct (NilEmpty.uint_of_string s).
Qed.

Lemma parseDigits_zero (s : string) :
  s <> "" -> parseDigits (String "0" s) = parseDigits s.
Proof.
  intros Hs. unfold parseDigits, NilZero.uint_of_string.
  rewrite uint_of_string_zero by assumption.
  destruct s as [|c r]; [congruence|].
  now destruct (NilEmpty.uint_of_string (String c r)).
Qed.

Lemma parseDigits_padStart (width : nat) (s : string) :
  s <> "" -> parseDigits (Text.padStart width "0" s) = parseDigits s.
Proof.
  intros Hs. unfold Text.padStart.
  induction (width - String.length s) as [|k IH]; [reflexivity|].
  cbn [Text.replicate String.append]. rewrite parseDigits_zero; [exact IH|].
  destruct k; cbn; [exact Hs | discriminate].
Qed.

Lemma digits_no_dash (s : string) :
  allChars Text.isDigit s = true -> noneOf isDash s = true.
Proof.
  induction s as [|c s IH]; [reflexivity|].
  cbn [allChars noneOf]. intros [Hc Hs]%andb_true_iff. rewrite (IH Hs), andb_true_r.
  unfold isDash. destruct (Ascii.eqb_spec c "-") as [->|]; [discriminate Hc | reflexivity].
Qed.

Lemma replicate_digits (k : nat) : allChars Text.isDigit (Text.replicate k "0") = true.
Proof. induction k; [reflexivity | exact IHk]. Qed.

Lemma padStart_digits (width : nat) (s : string) :
  allChars Text.isDigit s = true ->
  allChars Text.isDigit (Text.padStart width "0" s) = true.
Proof.
  intros Hs. unfold Text.padStart. rewrite allChars_app, replicate_digits. exact Hs.
Qed.

Lemma noneOf_app_dash (a b : string) : noneOf isDash (a +:+ "-" +:+ b) = false.
Proof.
  induction a as [|c a IH]; [reflexivity|].
  change (negb (isDash c) && noneOf isDash (a +:+ "-" +:+ b) = false).
  rewrite IH. apply andb_false_r.
Qed.

(** A text is cut in one way only at its last dash. *)
Lemma last_dash (a1 b1 a2 b2 : string) :
  noneOf isDash b1 = true -> noneOf isDash b2 = true ->
  a1 +:+ "-" +:+ b1 = a2 +:+ "-" +:+ b2 -> a1 = a2 /\ b1 = b2.
Proof.
  intros H1 H2. revert a2. induction a1 as [|c a1 IH]; intros [|c' a2] E.
  - cbn in E. injection E as E. now split.
  - cbn in E. injection E as <- E.
    assert (Hn : noneOf isDash b1 = false) by (subst b1; apply noneOf_app_dash).
    congruence.
  - cbn in E. injection E as -> E.
    assert (Hn : noneOf isDash b2 = false) by (subst b2; apply noneOf_app_dash).
    congruence.
  - cbn in E. injection E as <- E. destruct (IH _ E) as [-> ->]. now split.
Qed.

End Digits.

(** X12. [createQCHAINTxId] only reads the clock, and its result is never
    empty, so that [logQCHAIN] takes it as a [txId].  Two calls give the
    same identifier exactly when the prefix, the reading of the clock and
    the random draw are the same in both: identifiers made in the same
    millisecond differ only by the draw. *)
Theorem createQCHAINTxId_same_iff
    (prefix1 prefix2 : option string) (draw1 draw2 : N) (w1 w2 : World) :
  (exists id, createQCHAINTxId prefix1 draw1 w1 = (Ok id, w1)
              /\ truthy (VStr id) = true)
  /\ (fst (createQCHAINTxId prefix1 draw1 w1) = fst (createQCHAINTxId prefix2 draw2 w2)
      <-> default "TX" prefix1 = default "TX" prefix2
          /\ clock w1 = clock w2 /\ draw1 = draw2).
Proof.
  unfold createQCHAINTxId, bind, ask, ret. cbn [fst]. split.
  - eexists. split; [reflexivity|]. cbn [truthy].
    destruct (default "TX" prefix1); reflexivity.
  - split.
    + intros [= E].
      set (r1 := Text.padStart 6 "0" (Text.natToString draw1)) in *.
      set (r2 := Text.padStart 6 "0" (Text.natToString draw2)) in *.
      assert (E' : (default "TX" prefix1 +:+ "-" +:+ Text.natToString (clock w1))
                   +:+ "-" +:+ r1
                   = (default "TX" prefix2 +:+ "-" +:+ Text.natToString (clock w2))
                     +:+ "-" +:+ r2)
        by (rewrite !sapp_assoc; exact E).
      apply last_dash in E';
        try (apply digits_no_dash, padStart_digits, natToString_digits).
      destruct E' as [E' Er].
      apply last_dash in E'; try (apply digits_no_dash, natToString_digits).
      destruct E' as [Ep Et]. subst r1 r2.
      split; [exact Ep|]. split; [exact (natToString_inj _ _ Et)|].
      apply (f_equal parseDigits) in Er.
      rewrite !parseDigits_padStart, !parseDigits_natToString in Er
        by apply natToString_nonempty.
      congruence.
    + intros (-> & -> & ->). reflexivity.
Qed.

(** ** What is sent, and what never is *)

Section Sent.







End Sent.



(** ** After a run of appends: the count of [simulateSync] *)



(** ** The seal of a canon *)

Section Seal.







End Seal.

Section SealText.


End SealText.


(** ** The Spiral calendar *)

Section Calendar.

Import SpiralClock.





End Calendar.



(** X16. For every day of a year, counted from the Ethiopian New Year,
    [_calculateCurrentSpiralTime] finds a month between 1 and 13 that has a
    name and a day between 1 and 30, and they number the day: thirty times
    the months gone by plus the day is the day count plus one.  The
    correction for a month past the thirteenth is never taken. *)
Theorem ethiopianMonthDay_in_range (daysSinceEthiopianNewYear : Z) :
  (0 <= daysSinceEthiopianNewYear <= 365)%Z ->
  let '(month, day) := SpiralClock.ethiopianMonthDay daysSinceEthiopianNewYear in
  (1 <= month <= 13)%Z /\ (1 <= day <= 30)%Z
  /\ ((month - 1) * 30 + day = daysSinceEthiopianNewYear + 1)%Z
  /\ month = (daysSinceEthiopianNewYear / 30 + 1)%Z
  /\ SpiralClock._getEthiopianMonthName month <> "Unknown"
  /\ (month = 13 -> day <= 6)%Z.
Proof.
  intros Hd. unfold SpiralClock.ethiopianMonthDay.
  set (d := daysSinceEthiopianNewYear) in *.
  assert (Hq : (0 <= d / 30 <= 12)%Z).
  { split; [apply Z.div_pos; lia|].
    assert (d / 30 < 13)%Z by (apply Z.div_lt_upper_bound; lia). lia. }
  assert (Hr : Z.rem d 30 = (d mod 30)%Z) by (apply Z.rem_mod_nonneg; lia).
  pose proof (Z.mod_pos_bound d 30 ltac:(lia)) as Hm.
  pose proof (Z.div_mod d 30 ltac:(lia)) as Hdm.
  destruct (Z.ltb_spec 13 (d / 30 + 1)) as [Hgt|_]; [lia|].
  rewrite Hr. repeat split; try lia.
  - assert (Hcases : exists i, (i < 13)%nat /\ (d / 30 + 1 = Z.of_nat i + 1)%Z).
    { exists (Z.to_nat (d / 30)). lia. }
    destruct Hcases as (i & Hi & ->).
    do 13 (destruct i as [|i]; [vm_compute; discriminate|]). lia.
Qed.

Lemma ethiopianMonthDay_in_range_witness :
  let '(month, day) := SpiralClock.ethiopianMonthDay 364 in
  (1 <= month <= 13)%Z /\ (1 <= day <= 30)%Z
  /\ ((month - 1) * 30 + day = 364 + 1)%Z
  /\ month = (364 / 30 + 1)%Z
  /\ SpiralClock._getEthiopianMonthName month <> "Unknown"
  /\ (month = 13 -> day <= 6)%Z.
Proof. exact (ethiopianMonthDay_in_range 364 ltac:(lia)). Defined.

(** ** The delay of a record sent far *)

Section Delay.

Lemma getProp_app {A} (a b : list (string * A)) (k : string) :
  Json.getProp (a ++ b) k
  = match Json.getProp a k with
    | Some v => Some v
    | None => Json.getProp b k
    end.
Proof.
  induction a as [|[k' v] a IH]; [reflexivity|].
  cbn [app Json.getProp]. now destruct (String.eqb k' k).
Qed.

Lemma getProp_none {A} (l : list (string * A)) (k : string) :
  Forall (fun kv => fst kv <> k) l -> Json.getProp l k = None.
Proof.
  induction 1 as [|[k' v] l Hk _ IH]; [reflexivity|].
  cbn [Json.getProp]. cbn [fst] in Hk.
  destruct (String.eqb_spec k' k); [contradiction | exact IH].
Qed.

Lemma getProp_names {A} (l : list (string * A)) (k : string) :
  Json.arrayIndex k = None ->
  Json.getProp (filter (fun kv => Json.arrayIndex (fst kv) = None) l) k
  = Json.getProp l k.
Proof.
  intros Hk. induction l as [|[k' v] l IH]; [reflexivity|].
  rewrite filter_cons. cbn [fst]. destruct (decide _) as [E|E].
  - cbn [Json.getProp]. now rewrite IH.
  - cbn [Json.getProp]. rewrite IH.
    destruct (String.eqb_spec k' k) as [->|]; [contradiction | reflexivity].
Qed.

(** A name is looked up in the enumeration as in the object. *)
Lemma getProp_ownOrder {A} (l : list (string * A)) (k : string) :
  Json.arrayIndex k = None ->
  Json.getProp (Json.ownOrder l) k = Json.getProp l k.
Proof.
  intros Hk. rewrite ownOrder_unfold, getProp_app, getProp_none.
  - now apply getProp_names.
  - apply Forall_forall. intros kv Hin.
    apply list_elem_of_fmap in Hin as (p & -> & Hp).
    rewrite sortIdx_perm in Hp.
    pose proof (omap_tagIdx_tagged l) as Htag.
    rewrite Forall_forall in Htag. specialize (Htag p Hp).
    intros E. rewrite E in Htag. congruence.
Qed.

Lemma getProp_onValue {A B} (f : A -> B) (l : list (string * A)) (k : string) :
  Json.getProp (map (onValue f) l) k = f <$> Json.getProp l k.
Proof.
  induction l as [|[k' v] l IH]; [reflexivity|].
  cbn [map onValue fst snd Json.getProp]. now destruct (String.eqb k' k).
Qed.

Lemma getProp_elem {A} (l : list (string * A)) (k : string) (v : A) :
  Json.getProp l k = Some v -> exists kv, kv ∈ l /\ snd kv = v.
Proof.
  induction l as [|[k' v'] l IH]; [discriminate|].
  cbn [Json.getProp]. destruct (String.eqb k' k).
  - intros [= <-]. exists (k', v'). split; [left | reflexivity].
  - intros H. destruct (IH H) as (kv & Hin & E). exists kv. split; [now right | exact E].
Qed.

Lemma truthy_treeOf (n : nat) (h : list cell) (v : value) :
  is_Some (reify n h v) -> Json.truthy (treeOf n h v) = truthy v.
Proof.
  unfold treeOf. destruct v as [| |b|z| |s|l]; try (destruct n; reflexivity).
  destruct n as [|n]; cbn [reify]; [intros [t Ht]; discriminate Ht|].
  destruct (h !! l) as [[props|elems ps]|]; [| |intros [t Ht]; discriminate Ht];
    destruct (mapM _ _); cbn; intros [t Ht]; try discriminate Ht; reflexivity.
Qed.

End Delay.

(** X17. A record that says nothing of [interplanetary] is sent as an
    interplanetary one.  With a ledger that works, a call of [logQCHAIN]
    that is on line takes the 240 ms of the simulated light-speed delay
    unless the caller gave a falsy [interplanetary] ([false], [0], [null],
    the empty string); off line, no time passes. *)
Theorem logQCHAIN_delay
    (w : World) (l : loc) (props : list (string * value)) (logs : list Json.tree) :
  validRecord w l props -> storeHolds w logs -> ledgerFault w = None ->
  exists res w',
    logQCHAIN (VRef l) w = (Ok res, w')
    /\ clock w'
       = (clock w
          + if onLine w
               && (isUndefined (cellGet (CObj props) "interplanetary")
                   || truthy (cellGet (CObj props) "interplanetary"))
            then 240 else 0)%N.
Proof.
  intros (H & Hev & Htx & Hm & Hsnap) Hstore Hfault.
  destruct (logQCHAIN_run w l props logs H Hev Htx Hm Hsnap Hstore) as (tprops & Hrec & Hrun).
  set (h' := normalizedHeap (clock w) l (CObj props) (heap w)) in *.
  eexists _, _. split; [exact Hrun|].
  destruct (normalized_record (clock w) (heap w) l (CObj props) H) as (c' & Hc' & Hk & Ho).
  fold h' in Hc'. destruct c' as [props'|]; [|discriminate Ho].
  destruct (snapshot_object h' l props' _ Hc' Hrec) as [HF Etree].
  injection Etree as ->.
  set (ip := cellGet (CObj props) "interplanetary").
  assert (Hip : cellGet (CObj props') "interplanetary"
                = if isUndefined ip then VBool true else ip).
  { rewrite Hk, recordAfter_flags by discriminate. apply normalizedCell_interplanetary. }
  assert (Hfield : Json.truthy
                     (Json.field
                        (withSignature
                           (Json.TObj (map (onValue (treeOf (length h') h')) props'))
                           (quantumSignature
                              (Json.TObj (map (onValue (treeOf (length h') h')) props'))
                              (clock w)))
                        "interplanetary")
                   = isUndefined ip || truthy ip).
  { cbn [withSignature Json.field].
    rewrite getProp_setProp_ne by discriminate.
    rewrite getProp_ownOrder by reflexivity.
    rewrite getProp_onValue.
    cbn [cellGet] in Hip.
    destruct (Json.getProp props' "interplanetary") as [v|] eqn:Ev; cbn in Hip |- *.
    - destruct (getProp_elem _ _ _ Ev) as (kv & Hin & <-).
      rewrite Forall_forall in HF.
      rewrite (truthy_treeOf _ _ _ (HF kv Hin)), Hip.
      now destruct (isUndefined _).
    - destruct (isUndefined _); [discriminate Hip | now rewrite <- Hip]. }
  unfold afterTransmit. cbn [onLine ledgerFault persisted logged withStorage withHeap].
  rewrite Hfault, Hfield.
  destruct (onLine w); cbn [andb]; [|now rewrite N.add_0_r].
  destruct (isUndefined ip || truthy ip); cbn [clock logged withClock persisted withStorage
                                                withHeap];
    [reflexivity | now rewrite N.add_0_r].
Qed.

Lemma logQCHAIN_delay_witness :
  exists res w',
    logQCHAIN (VRef 0) onlineWorld = (Ok res, w')
    /\ clock w' = (clock onlineWorld + 240)%N.
Proof.
  assert (Hv : validRecord onlineWorld 0
                 [("event", VStr "boot"); ("txId", VStr "TX-1"); ("metrics", VRef 1)]).
  { repeat split; try reflexivity.
    - cbn. lia.
    - eexists. vm_compute. reflexivity. }
  exact (logQCHAIN_delay onlineWorld 0 _ [] Hv eq_refl eq_refl).
Defined.
Example sha256_abc :
  hashHex (Sha256.digest (Text.encode "abc"))
  = "ba7816bf8f01cfea414140de5dae2223b00361a396177a9cb410ff61f20015ad".
Proof. vm_compute. reflexivity. Qed.

Example sha256_empty :
  hashHex (Sha256.digest (Text.encode ""))
  = "e3b0c44298fc1c149afbf4c8996fb92427ae41e4649b934ca495991b7852b855".
Proof. vm_compute. reflexivity. Qed.

Example sha256_two_blocks :
  hashHex (Sha256.digest (Text.encode
    "abcdbcdecdefdefgefghfghighijhijkijkljklmklmnlmnomnopnopq"))
  = "248d6a61d20638b8e5c026930c3e6039a33ce45964ff2167f6ecedd419db06c1".
Proof. vm_compute. reflexivity. Qed.

